(** * SpydarSense: the CSI / bitrate alignment-and-feature pipeline

    A shallow embedding of [util/utils.py] and the properties of its
    alignment, gap-filling, windowing and join steps.

    Conventions of the embedding:
    - a Python float is an exact rational ([Q]), so the rounding error of
      float arithmetic is left out; [NaN], the missing-value marker of
      pandas, is [None] in a [cell]; float equality is [Qeq_bool];
    - a Python int is a [Z]; sizes given as counts are [nat];
    - a raised exception is the [Raise] branch of [result];
    - a pandas table is a [DataFrame]: its "timestamp" column and the list of
      its named value columns, column by column, with the default row index
      0, 1, 2, ... that every function of the pipeline leaves behind
      ([reset_index]);
    - the functions of numpy and pandas the pipeline calls are modelled in
      the modules [Np] and [Pd]; scikit-learn's principal-component fit is a
      parameter of [csi_feature_extraction]. *)

From Stdlib Require Import QArith Qround ZArith List String Bool Lia Lqa.
From Stdlib Require Import Sorted Permutation DecimalString.
Import ListNotations.

Open Scope Z_scope.
Open Scope Q_scope.

(** ** Exceptions *)

Inductive exn : Type :=
| ValueError (msg : string)
| KeyError (key : string).

Inductive result (A : Type) : Type :=
| Ok (a : A)
| Raise (e : exn).

Arguments Ok {A} a.
Arguments Raise {A} e.

Definition bind {A B : Type} (r : result A) (k : A -> result B) : result B :=
  match r with
  | Ok a => k a
  | Raise e => Raise e
  end.

Notation "x <- r ;; k" := (bind r (fun x => k))
  (at level 61, r at next level, right associativity).

Fixpoint mapM {A B : Type} (f : A -> result B) (l : list A) : result (list B) :=
  match l with
  | [] => Ok []
  | a :: l' => b <- f a ;; bs <- mapM f l' ;; Ok (b :: bs)
  end.

Definition raises {A : Type} (r : result A) : Prop := exists e, r = Raise e.

(** ** Numeric primitives of numpy and Python *)

Module Np.

(** [np.round] on a scalar: nearest integer, ties to the even one. *)
Definition rint (q : Q) : Z :=
  let f := Qfloor q in
  match Qcompare (q - inject_Z f) (1 # 2) with
  | Lt => f
  | Gt => (f + 1)%Z
  | Eq => if Z.even f then f else (f + 1)%Z
  end.

(** [np.round(x, 2)]: round half to even at the second decimal. *)
Definition round2 (q : Q) : Q := inject_Z (rint (q * 100)) / 100.

(** Smallest and largest element of a non-empty array; numpy raises on an
    empty one. *)
Definition Qmin_b (x y : Q) : Q := if Qle_bool x y then x else y.
Definition Qmax_b (x y : Q) : Q := if Qle_bool x y then y else x.

Definition min (l : list Q) : result Q :=
  match l with
  | [] => Raise (ValueError
      "zero-size array to reduction operation minimum which has no identity")
  | x :: l' => Ok (fold_left Qmin_b l' x)
  end.

Definition max (l : list Q) : result Q :=
  match l with
  | [] => Raise (ValueError
      "zero-size array to reduction operation maximum which has no identity")
  | x :: l' => Ok (fold_left Qmax_b l' x)
  end.

(** [np.arange(start, stop, step)]: [ceil((stop - start) / step)] points
    [start + i * step]; none when that count is not positive. *)
Definition arange_len (start stop step : Q) : nat :=
  Z.to_nat (Qceiling ((stop - start) / step)).

Definition arange (start stop step : Q) : result (list Q) :=
  if Qeq_bool step 0 then Raise (ValueError "arange: cannot compute length")
  else Ok (map (fun i => start + inject_Z (Z.of_nat i) * step)
               (seq 0 (arange_len start stop step))).

(** [np.linspace(start, stop, num, dtype=int)] on integer end points:
    [num] points [start + i * ((stop - start) / (num - 1))], then the cast to
    int.  One point gives [start] alone; a negative [num] is refused. *)
Definition linspace_int (start stop num : Z) : result (list Z) :=
  if (num <? 0)%Z then
    Raise (ValueError "Number of samples must be non-negative.")
  else
    let step := inject_Z (stop - start) / inject_Z (num - 1) in
    Ok (map (fun i => Qfloor (inject_Z start + inject_Z (Z.of_nat i) * step))
            (seq 0 (Z.to_nat num))).

End Np.

(** Python's [range(start, stop, step)]. *)
Definition range_len (lo hi step : Z) : Z :=
  if (0 <? step)%Z then
    if (lo <? hi)%Z then (1 + (hi - 1 - lo) / step)%Z else 0%Z
  else
    if (hi <? lo)%Z then (1 + (lo - 1 - hi) / (- step))%Z else 0%Z.

Definition range (lo hi step : Z) : result (list Z) :=
  if (step =? 0)%Z then Raise (ValueError "range() arg 3 must not be zero")
  else Ok (map (fun i => (lo + Z.of_nat i * step)%Z)
               (seq 0 (Z.to_nat (range_len lo hi step)))).

(** ** Tables *)

(** A table cell: a float, or [None] for the missing-value marker. *)
#[warning="-notation-for-abbreviation"]
Notation cell := (option Q).

Record DataFrame : Type := mkDataFrame {
  timestamp : list Q;
  columns : list (string * list cell)
}.

Definition nrows (df : DataFrame) : nat := List.length (timestamp df).

Definition column_names (df : DataFrame) : list string := map fst (columns df).

(** [df[name]]: the first column of that name. *)
Fixpoint get_column (name : string) (cols : list (string * list cell))
  : result (list cell) :=
  match cols with
  | [] => Raise (KeyError name)
  | (n, c) :: cols' => if String.eqb n name then Ok c else get_column name cols'
  end.

(** [df.loc[i, "timestamp"]] under the default row index. *)
Definition loc_timestamp (df : DataFrame) (i : nat) : result Q :=
  match nth_error (timestamp df) i with
  | Some t => Ok t
  | None => Raise (KeyError "timestamp")
  end.

(** [a[start:start + w]] for non-negative [start] and [w]. *)
Definition slice {A : Type} (start w : nat) (a : list A) : list A :=
  firstn w (skipn start a).

Module Pd.

(** The sort behind [sort_values], on a rational key.  Rows of equal key
    keep their order (insertion from the right: an element stays in front
    of the later elements that compare equal to it); the aligned grids of
    the pipeline have distinct timestamps, where no sort orders the rows
    otherwise. *)
Fixpoint insert_by {A : Type} (key : A -> Q) (x : A) (l : list A) : list A :=
  match l with
  | [] => [x]
  | y :: l' =>
      if Qle_bool (key x) (key y) then x :: l else y :: insert_by key x l'
  end.

Fixpoint sort_by {A : Type} (key : A -> Q) (l : list A) : list A :=
  match l with
  | [] => []
  | x :: l' => insert_by key x (sort_by key l')
  end.

(** The row positions in ascending order of their key. *)
Definition argsort (keys : list Q) : list nat :=
  map snd (sort_by fst (combine keys (seq 0 (List.length keys)))).

Definition take {A : Type} (d : A) (indexer : list nat) (col : list A) : list A :=
  map (fun i => nth i col d) indexer.

(** [df.sort_values("timestamp").reset_index(drop=True)] *)
Definition sort_values (df : DataFrame) : DataFrame :=
  let indexer := argsort (timestamp df) in
  {| timestamp := take 0 indexer (timestamp df);
     columns := map (fun nc => (fst nc, take None indexer (snd nc))) (columns df) |}.

(** [Series.ffill()]: a missing cell takes the last known value before it. *)
Fixpoint ffill_from (last : cell) (c : list cell) : list cell :=
  match c with
  | [] => []
  | Some v :: c' => Some v :: ffill_from (Some v) c'
  | None :: c' => last :: ffill_from last c'
  end.

Definition ffill (c : list cell) : list cell := ffill_from None c.

(** [Series.bfill()]: a missing cell takes the next known value after it. *)
Fixpoint bfill (c : list cell) : list cell :=
  match c with
  | [] => []
  | Some v :: c' => Some v :: bfill c'
  | None :: c' => hd None (bfill c') :: bfill c'
  end.

(** [Series.fillna(v)] *)
Definition fillna (v : Q) (c : list cell) : list cell :=
  map (fun x => match x with Some _ => x | None => Some v end) c.

(** The distinct keys of a [groupby], in ascending order. *)
Fixpoint drop_repeats (prev : Q) (l : list Q) : list Q :=
  match l with
  | [] => []
  | y :: l' =>
      if Qeq_bool prev y then drop_repeats prev l' else y :: drop_repeats y l'
  end.

Definition group_keys (keys : list Q) : list Q :=
  match sort_by (fun t => t) keys with
  | [] => []
  | x :: l => x :: drop_repeats x l
  end.

(** The values of one column in the rows whose key is [k], in row order. *)
Definition group {A : Type} (keys : list Q) (col : list A) (k : Q) : list A :=
  map snd (filter (fun p => Qeq_bool (fst p) k) (combine keys col)).

(** [df.groupby(key)[col].agg()]: one aggregated cell per distinct key. *)
Definition groupby_agg {A : Type} (agg : list A -> cell) (keys : list Q)
  (col : list A) : list cell :=
  map (fun k => agg (group keys col k)) (group_keys keys).

Definition Qsum (l : list Q) : Q := fold_right Qplus 0 l.
Definition Zsum (l : list Z) : Z := fold_right Z.add 0%Z l.

Definition mean (l : list Q) : cell :=
  match l with
  | [] => None
  | _ => Some (Qsum l / inject_Z (Z.of_nat (List.length l)))
  end.

Definition first (l : list Q) : cell := hd_error l.

Definition sum (l : list Z) : cell := Some (inject_Z (Zsum l)).

(** [Series.min()] and [Series.max()]: [NaN] on an empty series. *)
Definition min (l : list Q) : cell :=
  match l with [] => None | x :: l' => Some (fold_left Np.Qmin_b l' x) end.

Definition max (l : list Q) : cell :=
  match l with [] => None | x :: l' => Some (fold_left Np.Qmax_b l' x) end.

(** Position of a label in an index, by float equality. *)
Fixpoint get_loc (label : Q) (index : list Q) : option nat :=
  match index with
  | [] => None
  | k :: index' =>
      if Qeq_bool k label then Some O else option_map S (get_loc label index')
  end.

(** [df.reindex(labels)] for a table indexed by [index]: the row of each
    label, or a row of missing values where the index has no such label. *)
Definition reindex_column (index : list Q) (labels : list Q) (c : list cell)
  : list cell :=
  map (fun l => match get_loc l index with
                | Some i => nth i c None
                | None => None
                end) labels.

(** [Series.median()]: the middle of the known values, [NaN] when none. *)
Fixpoint known (c : list cell) : list Q :=
  match c with
  | [] => []
  | Some v :: c' => v :: known c'
  | None :: c' => known c'
  end.

Definition median (c : list cell) : cell :=
  let s := sort_by (fun v => v) (known c) in
  let n := List.length s in
  match n with
  | O => None
  | _ =>
      if Nat.even n
      then Some ((nth (n / 2 - 1)%nat s 0 + nth (n / 2)%nat s 0) / 2)
      else Some (nth (n / 2)%nat s 0)
  end.

End Pd.

(** ** The pipeline of [utils.py] *)

Definition subcarrier_name (i : nat) : string :=
  ("subcarrier_" ++ NilZero.string_of_uint (Nat.to_uint i))%string.

Definition is_subcarrier (name : string) : bool := String.prefix "subcarrier_" name.

(** [substring in name] *)
Definition contains (sub name : string) : bool :=
  match String.index 0 sub name with Some _ => true | None => false end.

Definition is_bitrate (name : string) : bool := contains "bitrate" name.

(** [csi_data.shape[1]] of a 2-D array given by its rows. *)
Definition shape1 (csi_data : list (list Q)) : nat :=
  match csi_data with
  | [] => O
  | row :: _ => List.length row
  end.

(** [np.round(t / time_interval) * time_interval] *)
Definition round_to (time_interval t : Q) : Q :=
  inject_Z (Np.rint (t / time_interval)) * time_interval.

(** The evenly spaced indices of line 42. *)
Definition subcarrier_indices (total_subcarriers : nat) (n_subcarriers : Z)
  : result (list Z) :=
  Np.linspace_int 0 (Z.of_nat total_subcarriers - 1) n_subcarriers.

(** The subcarrier subset of [align_csi_magnitude] (lines 39-45): the array
    restricted to the chosen columns, and the number of columns kept. *)
Definition select_subcarriers (csi_data : list (list Q)) (n_subcarriers : option Z)
  : result (list (list Q) * nat) :=
  let total_subcarriers := shape1 csi_data in
  match n_subcarriers with
  | Some n =>
      if (n <? Z.of_nat total_subcarriers)%Z then
        indices <- subcarrier_indices total_subcarriers n ;;
        Ok (map (fun row => map (fun j => nth (Z.to_nat j) row 0) indices) csi_data,
            Z.to_nat n)
      else Ok (csi_data, total_subcarriers)
  | None => Ok (csi_data, total_subcarriers)
  end.

(** The aggregation of the packets of one timestamp (lines 55-60). *)
Definition aggregation (aggregation_method : string) : result (list Q -> cell) :=
  if String.eqb aggregation_method "mean" then Ok Pd.mean
  else if String.eqb aggregation_method "first" then Ok Pd.first
  else Raise (ValueError "aggregation_method must be either 'mean' or 'first'").

Definition align_csi_magnitude (csi_data : list (list Q)) (csi_timestamps : list Q)
  (time_interval : Q) (n_subcarriers : option Z) (aggregation_method : string)
  : result DataFrame :=
  sel <- select_subcarriers csi_data n_subcarriers ;;
  let csi_data := fst sel in
  let n_subcarriers := snd sel in
  let rounded_times := map (round_to time_interval) csi_timestamps in
  let df_csi :=
    map (fun i => (subcarrier_name i, map (fun row => nth i row 0) csi_data))
        (seq 0 n_subcarriers) in
  if negb (List.length rounded_times =? List.length csi_data)%nat then
    Raise (ValueError "Length of values does not match length of index")
  else
    agg <- aggregation aggregation_method ;;
    let index := Pd.group_keys rounded_times in
    let grouped :=
      map (fun nc => (fst nc, Pd.groupby_agg agg rounded_times (snd nc))) df_csi in
    lo <- Np.min rounded_times ;;
    hi <- Np.max rounded_times ;;
    full_timeline <- Np.arange lo (hi + time_interval) time_interval ;;
    Ok {| timestamp := full_timeline;
          columns := map (fun nc => (fst nc, Pd.reindex_column index full_timeline (snd nc)))
                         grouped |}.

(** The caller's bitrate table: its "frame.time" and packet-length columns,
    and the "timestamp" column once one has been stored in it. *)
Record BitrateFrame : Type := mkBitrateFrame {
  frame_time : list Q;
  ws_col_Length : list Z;
  br_timestamp : option (list Q)
}.

(** [calculate_bitrate_and_align] returns the caller's table as the call
    leaves it, together with the aligned table or the exception. *)
Definition calculate_bitrate_and_align (bitrate_df : BitrateFrame)
  (time_interval : Q) (header_adjust : Z) : BitrateFrame * result DataFrame :=
  let lengths := map (fun l => (l - header_adjust)%Z) (ws_col_Length bitrate_df) in
  let rounded_times := map (round_to time_interval) (frame_time bitrate_df) in
  let bitrate_df :=
    {| frame_time := frame_time bitrate_df;
       ws_col_Length := lengths;
       br_timestamp := Some rounded_times |} in
  let index := Pd.group_keys rounded_times in
  let bitrate_grouped := Pd.groupby_agg Pd.sum rounded_times lengths in
  (bitrate_df,
   match Pd.min rounded_times, Pd.max rounded_times with
   | Some lo, Some hi =>
       full_timeline <- Np.arange lo (hi + time_interval) time_interval ;;
       Ok {| timestamp := full_timeline;
             columns := [("bitrate_bytes"%string,
                          Pd.reindex_column index full_timeline bitrate_grouped)] |}
   | _, _ => Raise (ValueError "arange: cannot compute length")
   end).

(** The start indices of the windows: [range(0, n - window_size + 1, stride)]. *)
Definition window_starts (n window_size stride : nat) : result (list Z) :=
  range 0 (Z.of_nat n - Z.of_nat window_size + 1) (Z.of_nat stride).

Section FeatureExtraction.

(** [PCA(n_components=1).fit(window).explained_variance_[0]] of
    scikit-learn, on the rows of a window; the fit may raise. *)
Variable explained_variance : list (list cell) -> result cell.

(** [df[cols].values]: the rows of the chosen columns. *)
Definition values (cols : list (string * list cell)) (n : nat) : list (list cell) :=
  map (fun i => map (fun nc => nth i (snd nc) None) cols) (seq 0 n).

(** [csi_matrix] of lines 137-138. *)
Definition csi_matrix (csi_aligned : DataFrame) : list (list cell) :=
  let subcarrier_cols :=
    filter (fun nc => is_subcarrier (fst nc)) (columns csi_aligned) in
  values subcarrier_cols (nrows csi_aligned).

Definition csi_feature_extraction (csi_aligned : DataFrame)
  (window_size stride : nat) : result DataFrame :=
  let csi_matrix := csi_matrix csi_aligned in
  let n_packets := List.length csi_matrix in
  starts <- window_starts n_packets window_size stride ;;
  out <- mapM (fun start =>
                 let start := Z.to_nat start in
                 let window := slice start window_size csi_matrix in
                 feature <- explained_variance window ;;
                 let center_idx := (start + window_size / 2)%nat in
                 t <- loc_timestamp csi_aligned center_idx ;;
                 Ok (t, feature)) starts ;;
  let feature_array := map (option_map Np.round2) (map snd out) in
  Ok {| timestamp := map fst out;
        columns := [("csi_feature"%string, feature_array)] |}.

End FeatureExtraction.

Definition median_filter_bitrate (bitrate_aligned : DataFrame)
  (window_size stride : nat) : result DataFrame :=
  let bitrate_sorted := Pd.sort_values bitrate_aligned in
  let n := nrows bitrate_sorted in
  starts <- window_starts n window_size stride ;;
  out <- mapM (fun start =>
                 let start := Z.to_nat start in
                 col <- get_column "bitrate_bytes" (columns bitrate_sorted) ;;
                 let window := slice start window_size col in
                 let center_idx := (start + window_size / 2)%nat in
                 t <- loc_timestamp bitrate_sorted center_idx ;;
                 Ok (t, Pd.median window)) starts ;;
  Ok {| timestamp := map fst out;
        columns := [("bitrate_median"%string, map snd out)] |}.

Definition fill_missing_csi (csi_aligned : DataFrame) : DataFrame :=
  let csi_sorted := Pd.sort_values csi_aligned in
  {| timestamp := timestamp csi_sorted;
     columns := map (fun nc => if is_subcarrier (fst nc)
                               then (fst nc, Pd.bfill (Pd.ffill (snd nc)))
                               else nc) (columns csi_sorted) |}.

Definition fill_missing_bitrate (bitrate_aligned : DataFrame) : DataFrame :=
  let bitrate_sorted := Pd.sort_values bitrate_aligned in
  {| timestamp := timestamp bitrate_sorted;
     columns := map (fun nc => if is_bitrate (fst nc)
                               then (fst nc, Pd.fillna 0 (snd nc))
                               else nc) (columns bitrate_sorted) |}.

(** The join modes the pipeline uses. *)
Inductive join_mode : Type := inner | outer.

Definition indexed {A : Type} (l : list A) : list (nat * A) :=
  combine (seq 0 (List.length l)) l.

(** The row pairs of [pd.merge(left, right, on="timestamp", how=how)]: for
    every left row the right rows of equal key (or no right row, in an outer
    join), then in an outer join the right rows no left row matched. *)
Definition matches (t : Q) (right : list Q) : list nat :=
  map fst (filter (fun ju => Qeq_bool t (snd ju)) (indexed right)).

Definition join_indexers (how : join_mode) (left right : list Q)
  : list (option nat * option nat) :=
  let of_left :=
    flat_map (fun it =>
                match matches (snd it) right, how with
                | [], outer => [(Some (fst it), None)]
                | js, _ => map (fun j => (Some (fst it), Some j)) js
                end) (indexed left) in
  match how with
  | inner => of_left
  | outer =>
      of_left ++
      map (fun ju => (None, Some (fst ju)))
          (filter (fun ju => match matches (snd ju) left with
                             | [] => true
                             | _ => false
                             end) (indexed right))
  end.

Definition take_opt {A : Type} (indexer : list (option nat)) (col : list (option A))
  : list (option A) :=
  map (fun oi => match oi with Some i => nth i col None | None => None end) indexer.

Definition merge (left right : DataFrame) (how : join_mode) : DataFrame :=
  let pairs := join_indexers how (timestamp left) (timestamp right) in
  {| timestamp :=
       map (fun p => match p with
                     | (Some i, _) => nth i (timestamp left) 0
                     | (None, Some j) => nth j (timestamp right) 0
                     | (None, None) => 0
                     end) pairs;
     columns :=
       map (fun nc => (fst nc, take_opt (map fst pairs) (snd nc))) (columns left) ++
       map (fun nc => (fst nc, take_opt (map snd pairs) (snd nc))) (columns right) |}.

Definition join_features (csi_feature_df bitrate_filtered_df : DataFrame)
  (how : join_mode) : DataFrame :=
  let merged_df := merge csi_feature_df bitrate_filtered_df how in
  Pd.sort_values merged_df.

(** ** The driver of one file set *)

(** [process_file_set] (lines 267-299).  The three reads are its
    parameters, each the array or table read or the exception of the read;
    a failed read is reported and ends the call ([None]), and the rest
    returns the joined table handed to the plot, or lets the exception of a
    step escape. *)
Definition process_file_set
  (explained_variance : list (list cell) -> result cell)
  (csi_mag : result (list (list Q))) (csi_meta : result (list Q))
  (br : result BitrateFrame) : option (result DataFrame) :=
  match csi_mag with
  | Raise _ => None
  | Ok csi_data =>
    match csi_meta with
    | Raise _ => None
    | Ok csi_timestamps =>
      match br with
      | Raise _ => None
      | Ok br_df =>
          Some (csi_aligned <- align_csi_magnitude csi_data csi_timestamps
                                 (1 # 10) (Some 12%Z) "mean" ;;
                let csi_aligned_filled := fill_missing_csi csi_aligned in
                bitrate_aligned <-
                  snd (calculate_bitrate_and_align br_df (1 # 10) 34) ;;
                let bitrate_aligned_filled :=
                  fill_missing_bitrate bitrate_aligned in
                csi_feature_df <-
                  csi_feature_extraction explained_variance
                    csi_aligned_filled 10 1 ;;
                bitrate_filtered_df <-
                  median_filter_bitrate bitrate_aligned_filled 3 1 ;;
                Ok (join_features csi_feature_df bitrate_filtered_df inner))
      end
    end
  end.

(** ** The driver of the file sets *)

(** The exceptions that end [main]: the two it raises itself, and an
    exception [e] of [process_file_set] on the file set of rank [i], which
    [main] does not catch. *)
Inductive main_exn : Type :=
| FileNotFoundError (folder : string)
| IndexError (t : Z) (num_sets : nat)
| Escaped (i : nat) (e : exn).

(** What [main] prints for a file set before it goes on: the three file
    names of a set it hands to [process_file_set], or the three segments of
    a set it skips. *)
Inductive set_report : Type :=
| Processing (i : nat) (br_file csi_meta_file csi_mag_file : string)
| Skipping (i : nat) (seg_br seg_csi_meta seg_csi_mag : string).

Definition report_index (r : set_report) : nat :=
  match r with
  | Processing i _ _ _ => i
  | Skipping i _ _ _ => i
  end.

(** The three subfolders as the file system shows them: the files of a
    folder as listed, or [None] when the path is no directory. *)
Record Folders : Type := mkFolders {
  br_metadata : option (list string);
  csi_metadata : option (list string);
  csi_magnitude_data : option (list string)
}.

(** Python's [sorted] on file names. *)
Fixpoint insert_name (x : string) (l : list string) : list string :=
  match l with
  | [] => [x]
  | y :: l' => if String.leb x y then x :: l else y :: insert_name x l'
  end.

Fixpoint sorted (l : list string) : list string :=
  match l with
  | [] => []
  | x :: l' => insert_name x (sorted l')
  end.

(** [name[3:18]] *)
Definition segment (name : string) : string := substring 3 15 name.

(** The report of line 356-374 on the file set of rank [i]. *)
Definition check_set (br_files csi_meta_files csi_mag_files : list string)
  (i : nat) : set_report :=
  let br_file := nth i br_files EmptyString in
  let csi_meta_file := nth i csi_meta_files EmptyString in
  let csi_mag_file := nth i csi_mag_files EmptyString in
  let seg_br := segment br_file in
  let seg_csi_meta := segment csi_meta_file in
  let seg_csi_mag := segment csi_mag_file in
  if String.eqb seg_br seg_csi_meta && String.eqb seg_csi_meta seg_csi_mag
  then Processing i br_file csi_meta_file csi_mag_file
  else Skipping i seg_br seg_csi_meta seg_csi_mag.

(** The loop of lines 355-382 over the selected ranks.  [process] is the
    outcome of [process_file_set] on the files of a set, with its arguments
    in the order of line 382: [None] when the call returns, the exception
    when it raises. *)
Fixpoint run_sets (process : string -> string -> string -> option exn)
  (br_files csi_meta_files csi_mag_files : list string) (indices : list nat)
  : main_exn + list set_report :=
  match indices with
  | [] => inr []
  | i :: rest =>
      let r := check_set br_files csi_meta_files csi_mag_files i in
      let raised :=
        match r with
        | Processing _ br_file csi_meta_file csi_mag_file =>
            process csi_mag_file csi_meta_file br_file
        | Skipping _ _ _ _ => None
        end in
      match raised with
      | Some e => inl (Escaped i e)
      | None =>
          match run_sets process br_files csi_meta_files csi_mag_files rest with
          | inl e => inl e
          | inr rs => inr (r :: rs)
          end
      end
  end.

(** [main] (lines 319-382), with the selector [t] of line 322, the state of
    the three subfolders and the outcome of [process_file_set] as
    parameters: the exception that ends it, or the reports of the file sets
    it went through, in order. *)
Definition main (process : string -> string -> string -> option exn)
  (t : Z) (fs : Folders) : main_exn + list set_report :=
  match br_metadata fs, csi_metadata fs, csi_magnitude_data fs with
  | None, _, _ => inl (FileNotFoundError "br_metadata")
  | Some _, None, _ => inl (FileNotFoundError "csi_metadata")
  | Some _, Some _, None => inl (FileNotFoundError "csi_magnitude_data")
  | Some br, Some csi_meta, Some csi_mag =>
      let br_files := sorted br in
      let csi_meta_files := sorted csi_meta in
      let csi_mag_files := sorted csi_mag in
      let num_sets :=
        Nat.min (List.length br_files)
                (Nat.min (List.length csi_meta_files) (List.length csi_mag_files)) in
      if (num_sets =? 0)%nat then inr []
      else
        let indices :=
          if (0 <? t)%Z then
            if (Z.of_nat num_sets <? t)%Z then inl (IndexError t num_sets)
            else inr [Z.to_nat (t - 1)]
          else inr (seq 0 num_sets) in
        match indices with
        | inl e => inl e
        | inr indices =>
            run_sets process br_files csi_meta_files csi_mag_files indices
        end
  end.

(** The number of file sets of three listings. *)
Definition num_sets_of (br csi_meta csi_mag : list string) : nat :=
  Nat.min (List.length br) (Nat.min (List.length csi_meta) (List.length csi_mag)).

(** What the loop of [main] meets at rank [i]: the exception of
    [process_file_set] when the set is processed and the call raises. *)
Definition set_outcome (process : string -> string -> string -> option exn)
  (br_files csi_meta_files csi_mag_files : list string) (i : nat) : option exn :=
  match check_set br_files csi_meta_files csi_mag_files i with
  | Processing _ br_file csi_meta_file csi_mag_file =>
      process csi_mag_file csi_meta_file br_file
  | Skipping _ _ _ _ => None
  end.

(** The files of rank [i] agree on their segment and [process_file_set]
    raises [e] on them. *)
Definition fails_at (process : string -> string -> string -> option exn)
  (br csi_meta csi_mag : list string) (i : nat) (e : exn) : Prop :=
  exists b m g,
    nth_error (sorted br) i = Some b /\
    nth_error (sorted csi_meta) i = Some m /\
    nth_error (sorted csi_mag) i = Some g /\
    segment b = segment m /\ segment m = segment g /\
    process g m b = Some e.

(** ** The label of an activity ([cnn_model.py]) *)

(** [str.lower] and [str.strip] on the ASCII characters, which the labels
    of the data set are made of. *)
Definition is_upper (c : Ascii.ascii) : bool :=
  ((65 <=? Ascii.nat_of_ascii c) && (Ascii.nat_of_ascii c <=? 90))%nat.

Definition lower_char (c : Ascii.ascii) : Ascii.ascii :=
  if is_upper c then Ascii.ascii_of_nat (Ascii.nat_of_ascii c + 32) else c.

Fixpoint lower (s : string) : string :=
  match s with
  | EmptyString => EmptyString
  | String c s' => String (lower_char c) (lower s')
  end.

(** The ASCII whitespace of Python: tab to carriage return, the four
    separators 28 to 31, and the space. *)
Definition is_space (c : Ascii.ascii) : bool :=
  (((9 <=? Ascii.nat_of_ascii c) && (Ascii.nat_of_ascii c <=? 13)) ||
   ((28 <=? Ascii.nat_of_ascii c) && (Ascii.nat_of_ascii c <=? 32)))%nat.

Fixpoint lstrip (s : string) : string :=
  match s with
  | EmptyString => EmptyString
  | String c s' => if is_space c then lstrip s' else s
  end.

Fixpoint rstrip (s : string) : string :=
  match s with
  | EmptyString => EmptyString
  | String c s' =>
      match rstrip s' with
      | EmptyString => if is_space c then EmptyString else String c EmptyString
      | r => String c r
      end
  end.

Definition strip (s : string) : string := rstrip (lstrip s).

(** [map_activity] (cnn_model.py, lines 16-24). *)
Definition map_activity (activity : string) : Z :=
  let act := strip (lower activity) in
  if String.eqb act "static" then 0%Z
  else if String.eqb act "mild" || String.eqb act "aggressive" then 1%Z
  else 1%Z.

(** A string of whitespace only. *)
Fixpoint all_space (s : string) : Prop :=
  match s with
  | EmptyString => True
  | String c s' => is_space c = true /\ all_space s'
  end.

(** ** Specification vocabulary *)

(** Rows in ascending order of timestamp. *)
Definition ascending (ts : list Q) : Prop := Sorted Qle ts.

(** Strictly increasing timestamps. *)
Definition increasing (ts : list Q) : Prop := Sorted Qlt ts.

(** A timestamp occurs in a column, by float equality. *)
Definition has_time (t : Q) (ts : list Q) : Prop := exists u, In u ts /\ u == t.

(** How many rows of a timestamp column equal [t]. *)
Definition occurrences (t : Q) (ts : list Q) : nat :=
  List.length (filter (fun u => Qeq_bool t u) ts).

(** Every column has a known value in every row of the table. *)
Definition complete (df : DataFrame) : Prop :=
  Forall (fun nc => List.length (snd nc) = nrows df /\
                    Forall (fun x => x <> None) (snd nc)) (columns df).

Definition all_missing (c : list cell) : Prop := Forall (fun x => x = None) c.

(** The number of windows of [w] rows, [s] rows apart, in [n] rows:
    [max(0, floor((n - w) / s) + 1)]. *)
Definition window_count (n w s : nat) : nat :=
  Z.to_nat (Z.max 0 ((Z.of_nat n - Z.of_nat w) / Z.of_nat s + 1)).


(** The aggregation methods [align_csi_magnitude] supports. *)
Definition supported (aggregation_method : string) : Prop :=
  aggregation_method = "mean"%string \/ aggregation_method = "first"%string.

(** A subcarrier count numpy accepts: none given, or not negative. *)
Definition valid_count (n_subcarriers : option Z) : Prop :=
  match n_subcarriers with
  | Some n => (0 <= n)%Z
  | None => True
  end.



Definition is_known (x : cell) : bool :=
  match x with Some _ => true | None => false end.

(** The nearest known value at or after row [i], and at or before row [i],
    in the words of the gap-filling policy. *)
Definition next_known (c : list cell) (i : nat) : cell :=
  hd None (filter is_known (skipn i c)).

Definition last_known (c : list cell) (i : nat) : cell :=
  hd None (filter is_known (rev (firstn (S i) c))).

(** Forward first, backward second. *)
Definition nearest_known (c : list cell) (i : nat) : cell :=
  match last_known c i with
  | Some v => Some v
  | None => next_known c i
  end.

(** ** Example tables *)

Definition csi_with_gaps : DataFrame :=
  {| timestamp := [3; 1; 2; 0];
     columns := [("subcarrier_0"%string, [None; Some 1; None; None]);
                 ("subcarrier_1"%string, [None; None; None; None])] |}.

Definition bitrate_full : DataFrame :=
  {| timestamp := [2; 0; 1];
     columns := [("bitrate_bytes"%string, [Some 30; Some 10; Some 20]);
                 ("subcarrier_0"%string, [Some 3; Some 1; Some 2])] |}.

Definition csi_features_3 : DataFrame :=
  {| timestamp := [0; 1; 2];
     columns := [("csi_feature"%string, [Some 1; Some 2; Some 3])] |}.

Definition bitrate_medians_3 : DataFrame :=
  {| timestamp := [0; 1; 2];
     columns := [("bitrate_median"%string, [Some 10; Some 20; Some 30])] |}.

Definition bitrate_5 : DataFrame :=
  {| timestamp := [0; 1; 2; 3; 4];
     columns := [("bitrate_bytes"%string,
                  [Some 10; Some 20; Some 30; Some 40; Some 50])] |}.

(** ** Vocabulary of the further properties *)

(** Column [j] of a 2-D array given by its rows. *)
Definition data_column (j : nat) (data : list (list Q)) : list Q :=
  map (fun row => nth j row 0) data.

(** The values of a raw column in the rows whose timestamp rounds to
    [label], in row order. *)
Definition bucket_values {A : Type} (ti : Q) (ts : list Q) (col : list A)
  (label : Q) : list A :=
  map snd (filter (fun tv => Qeq_bool (round_to ti (fst tv)) label)
                  (combine ts col)).

(** The number of subcarrier columns a call of [align_csi_magnitude] keeps. *)
Definition kept_subcarriers (csi_data : list (list Q)) (n_subcarriers : option Z)
  : nat :=
  match n_subcarriers with
  | Some n => if (n <? Z.of_nat (shape1 csi_data))%Z
              then Z.to_nat n else shape1 csi_data
  | None => shape1 csi_data
  end.


(** The table a call returned, for the examples (no row when it raised). *)
Definition table_of (r : result DataFrame) : DataFrame :=
  match r with
  | Ok df => df
  | Raise _ => {| timestamp := []; columns := [] |}
  end.

(** Three packets of one subcarrier, the last two in the same bucket. *)
Definition csi_aligned_3 : DataFrame :=
  table_of (align_csi_magnitude [[1]; [2]; [6]]
              [4 # 100; 6 # 100; 8 # 100] (1 # 10) None "mean").

(** A timeline of step [ti]: strictly increasing, consecutive rows [ti]
    apart, every row an integer multiple of [ti]. *)
Definition uniform_grid (ti : Q) (grid : list Q) : Prop :=
  increasing grid /\
  (forall i l l', nth_error grid i = Some l -> nth_error grid (S i) = Some l' ->
     l' == l + ti) /\
  (forall l, In l grid -> exists k, l == inject_Z k * ti).

(** Three packets, two of them in the same bucket. *)
Definition bitrate_raw_3 : BitrateFrame :=
  {| frame_time := [123 # 100; 124 # 100; 151 # 100];
     ws_col_Length := [100%Z; 50%Z; 20%Z];
     br_timestamp := None |}.

(** The table [calculate_bitrate_and_align] returns for them. *)
Definition bitrate_aligned_3 : DataFrame :=
  table_of (snd (calculate_bitrate_and_align bitrate_raw_3 (1 # 10) 34)).

(** An unsorted table with gaps in a bitrate column and in another one. *)
Definition bitrate_with_gaps : DataFrame :=
  {| timestamp := [2; 0; 1];
     columns := [("bitrate_bytes"%string, [None; Some 10; None]);
                 ("csi_feature"%string, [None; Some 1; None])] |}.

(** Bitrate medians one second later than [csi_features_3]. *)
Definition bitrate_medians_shifted : DataFrame :=
  {| timestamp := [1; 2; 3];
     columns := [("bitrate_median"%string, [Some 10; Some 20; Some 30])] |}.

(** A folder of five captures, listed out of order. *)
Definition listing_5 : list string :=
  ["br_20240101_120500_x.csv"; "br_20240101_120100_x.csv";
   "br_20240101_120300_x.csv"; "br_20240101_120200_x.csv";
   "br_20240101_120400_x.csv"]%string.

(** ** Sorting *)

Section Sorting.

Context {A : Type} (key : A -> Q).

Let le_key (a b : A) : Prop := key a <= key b.

Lemma insert_by_perm (x : A) (l : list A) :
  Permutation (x :: l) (Pd.insert_by key x l).
Proof.
  induction l as [|y l IH]; simpl.
  - apply Permutation_refl.
  - destruct (Qle_bool (key x) (key y)).
    + apply Permutation_refl.
    + eapply perm_trans; [apply perm_swap|].
      apply perm_skip, IH.
Qed.

Lemma sort_by_perm (l : list A) : Permutation l (Pd.sort_by key l).
Proof.
  induction l as [|x l IH]; simpl.
  - constructor.
  - eapply perm_trans; [apply perm_skip, IH|apply insert_by_perm].
Qed.

Lemma sort_by_length (l : list A) :
  List.length (Pd.sort_by key l) = List.length l.
Proof. symmetry. apply Permutation_length, sort_by_perm. Qed.

Lemma insert_by_hd (x a : A) (l : list A) :
  le_key a x -> HdRel le_key a l -> HdRel le_key a (Pd.insert_by key x l).
Proof.
  intros Hax Hal. destruct l as [|y l]; simpl.
  - constructor. exact Hax.
  - destruct (Qle_bool (key x) (key y)); constructor.
    + exact Hax.
    + inversion Hal; assumption.
Qed.

Lemma insert_by_sorted (x : A) (l : list A) :
  Sorted le_key l -> Sorted le_key (Pd.insert_by key x l).
Proof.
  induction l as [|y l IH]; simpl; intros Hs.
  - repeat constructor.
  - destruct (Qle_bool (key x) (key y)) eqn:E.
    + constructor; [exact Hs|].
      constructor. apply Qle_bool_iff. exact E.
    + inversion Hs as [|? ? Hl Hy]; subst.
      constructor; [apply IH; exact Hl|].
      apply insert_by_hd; [|exact Hy].
      unfold le_key. apply Qlt_le_weak, Qnot_le_lt.
      intro H. apply Qle_bool_iff in H. congruence.
Qed.

Lemma sort_by_sorted (l : list A) : Sorted le_key (Pd.sort_by key l).
Proof.
  induction l as [|x l IH]; simpl.
  - constructor.
  - apply insert_by_sorted, IH.
Qed.

Lemma sort_by_fixes_sorted (l : list A) :
  Sorted le_key l -> Pd.sort_by key l = l.
Proof.
  induction l as [|x l IH]; simpl; intros Hs; [reflexivity|].
  inversion Hs as [|? ? Hl Hx]; subst.
  rewrite (IH Hl).
  destruct l as [|y l]; simpl; [reflexivity|].
  inversion Hx as [|? ? Hxy]; subst.
  apply Qle_bool_iff in Hxy. rewrite Hxy. reflexivity.
Qed.

Lemma sorted_map_key (l : list A) :
  Sorted le_key l -> Sorted Qle (map key l).
Proof.
  induction 1 as [|x l Hl IH Hx]; simpl; constructor; [exact IH|].
  destruct Hx; simpl; constructor. assumption.
Qed.

Lemma sorted_of_map_key (l : list A) :
  Sorted Qle (map key l) -> Sorted le_key l.
Proof.
  induction l as [|x l IH]; simpl; intros Hs; constructor;
    inversion Hs as [|? ? Hl Hx]; subst.
  - apply IH, Hl.
  - destruct l; simpl in *; constructor. inversion Hx; assumption.
Qed.

End Sorting.

(** ** [sort_values] *)

Lemma map_fst_combine {A B : Type} (l : list A) (l' : list B) :
  List.length l = List.length l' -> map fst (combine l l') = l.
Proof.
  revert l'. induction l as [|x l IH]; intros [|y l'] H; simpl in *;
    try discriminate; [reflexivity|].
  f_equal. apply IH. lia.
Qed.

Lemma map_snd_combine {A B : Type} (l : list A) (l' : list B) :
  List.length l = List.length l' -> map snd (combine l l') = l'.
Proof.
  revert l'. induction l as [|x l IH]; intros [|y l'] H; simpl in *;
    try discriminate; [reflexivity|].
  f_equal. apply IH. lia.
Qed.

Lemma in_combine_seq {A : Type} (d : A) (l : list A) (s : nat) (x : A) (i : nat) :
  In (x, i) (combine l (seq s (List.length l))) ->
  (s <= i < s + List.length l)%nat /\ nth (i - s) l d = x.
Proof.
  revert s. induction l as [|y l IH]; simpl; intros s H; [contradiction|].
  destruct H as [H|H].
  - inversion H; subst. replace (i - i)%nat with O by lia. split; [lia|reflexivity].
  - apply IH in H. destruct H as [Hr Hn]. split; [lia|].
    replace (i - s)%nat with (S (i - S s)) by lia. exact Hn.
Qed.

Lemma take_length {A : Type} (d : A) (indexer : list nat) (col : list A) :
  List.length (Pd.take d indexer col) = List.length indexer.
Proof. apply length_map. Qed.

Lemma take_seq {A : Type} (d : A) (col : list A) :
  Pd.take d (seq 0 (List.length col)) col = col.
Proof.
  unfold Pd.take. induction col as [|x col IH]; simpl; [reflexivity|].
  f_equal. rewrite <- seq_shift, map_map. exact IH.
Qed.

Lemma argsort_length (ts : list Q) :
  List.length (Pd.argsort ts) = List.length ts.
Proof.
  unfold Pd.argsort. rewrite length_map, sort_by_length, length_combine, length_seq.
  lia.
Qed.

Lemma argsort_in_range (ts : list Q) (i : nat) :
  In i (Pd.argsort ts) -> (i < List.length ts)%nat.
Proof.
  unfold Pd.argsort. intros H. apply in_map_iff in H.
  destruct H as [[t j] [E H]]. simpl in E. subst j.
  apply (Permutation_in _ (Permutation_sym (sort_by_perm fst _))) in H.
  apply (in_combine_seq 0) in H. lia.
Qed.

Lemma take_argsort (ts : list Q) :
  Pd.take 0 (Pd.argsort ts) ts =
  map fst (Pd.sort_by fst (combine ts (seq 0 (List.length ts)))).
Proof.
  unfold Pd.take, Pd.argsort. rewrite map_map.
  apply map_ext_in. intros [t i] H. simpl.
  apply (Permutation_in _ (Permutation_sym (sort_by_perm fst _))) in H.
  apply (in_combine_seq 0) in H. destruct H as [_ H].
  rewrite Nat.sub_0_r in H. exact H.
Qed.

Lemma sort_values_ascending (df : DataFrame) :
  ascending (timestamp (Pd.sort_values df)).
Proof.
  unfold ascending. simpl. rewrite take_argsort.
  apply sorted_map_key, sort_by_sorted.
Qed.

Lemma sort_values_perm (df : DataFrame) :
  Permutation (timestamp df) (timestamp (Pd.sort_values df)).
Proof.
  simpl. rewrite take_argsort.
  rewrite <- (map_fst_combine (timestamp df) (seq 0 (List.length (timestamp df))))
    at 1 by (rewrite length_seq; reflexivity).
  apply Permutation_map, sort_by_perm.
Qed.

Lemma sort_values_nrows (df : DataFrame) :
  nrows (Pd.sort_values df) = nrows df.
Proof. unfold nrows. simpl. rewrite take_length. apply argsort_length. Qed.

Lemma sort_values_names (df : DataFrame) :
  column_names (Pd.sort_values df) = column_names df.
Proof. unfold column_names. simpl. rewrite map_map. reflexivity. Qed.

Lemma sort_values_column_length (df : DataFrame) :
  Forall (fun nc => List.length (snd nc) = nrows df) (columns (Pd.sort_values df)).
Proof.
  simpl. apply Forall_map, Forall_forall. intros nc _. simpl.
  rewrite take_length. apply argsort_length.
Qed.

Lemma argsort_ascending (ts : list Q) :
  ascending ts -> Pd.argsort ts = seq 0 (List.length ts).
Proof.
  intros Hs. unfold Pd.argsort.
  assert (Hl : List.length ts = List.length (seq 0 (List.length ts)))
    by (rewrite length_seq; reflexivity).
  rewrite sort_by_fixes_sorted.
  - apply map_snd_combine, Hl.
  - apply sorted_of_map_key. rewrite map_fst_combine by exact Hl. exact Hs.
Qed.

(** Sorting a table whose rows are already in order returns the table. *)
Lemma sort_values_ascending_id (df : DataFrame) :
  ascending (timestamp df) ->
  Forall (fun nc => List.length (snd nc) = nrows df) (columns df) ->
  Pd.sort_values df = df.
Proof.
  intros Hs Hc. unfold Pd.sort_values.
  rewrite (argsort_ascending _ Hs). destruct df as [ts cols]. simpl in *.
  f_equal.
  - apply take_seq.
  - unfold nrows in Hc. simpl in Hc.
    induction cols as [|[n c] cols IH]; simpl; [reflexivity|].
    inversion Hc as [|? ? Hn Hc']; subst. simpl in Hn.
    rewrite (IH Hc'). rewrite <- Hn at 1. rewrite take_seq. reflexivity.
Qed.

(** ** Forward and backward fill *)

Lemma ffill_from_length (last : cell) (c : list cell) :
  List.length (Pd.ffill_from last c) = List.length c.
Proof.
  revert last. induction c as [|[v|] c IH]; intros last; simpl; auto.
Qed.

Lemma bfill_length (c : list cell) : List.length (Pd.bfill c) = List.length c.
Proof. induction c as [|[v|] c IH]; simpl; auto. Qed.

Lemma ffill_from_known (last : cell) (c : list cell) :
  Forall (fun x => x <> None) c -> Pd.ffill_from last c = c.
Proof.
  revert last. induction c as [|[v|] c IH]; intros last H; simpl;
    inversion H; subst; [reflexivity| |congruence].
  rewrite IH by assumption. reflexivity.
Qed.

Lemma bfill_known (c : list cell) :
  Forall (fun x => x <> None) c -> Pd.bfill c = c.
Proof.
  induction c as [|[v|] c IH]; intros H; simpl;
    inversion H; subst; [reflexivity| |congruence].
  rewrite IH by assumption. reflexivity.
Qed.

Lemma ffill_missing (c : list cell) : all_missing c -> Pd.ffill c = c.
Proof.
  unfold Pd.ffill. induction 1 as [|x c Hx Hc IH]; simpl; [reflexivity|].
  subst x. rewrite IH. reflexivity.
Qed.

Lemma bfill_missing (c : list cell) : all_missing c -> Pd.bfill c = c.
Proof.
  induction 1 as [|x c Hx Hc IH]; simpl; [reflexivity|].
  subst x. rewrite IH. destruct Hc as [|y]; simpl; [reflexivity|].
  subst y. reflexivity.
Qed.

Lemma ffill_from_some (v : Q) (c : list cell) :
  Forall (fun x => x <> None) (Pd.ffill_from (Some v) c).
Proof.
  revert v. induction c as [|[w|] c IH]; intros v; simpl; constructor;
    auto; discriminate.
Qed.

(** After both passes a column has no gap left, unless it had no value. *)
Lemma fill_known_or_missing (c : list cell) :
  Forall (fun x => x <> None) (Pd.bfill (Pd.ffill c)) \/
  all_missing (Pd.bfill (Pd.ffill c)).
Proof.
  unfold Pd.ffill. induction c as [|[v|] c IH]; simpl.
  - right. constructor.
  - left. rewrite bfill_known by apply ffill_from_some.
    constructor; [discriminate|apply ffill_from_some].
  - destruct IH as [IH|IH].
    + destruct (Pd.bfill (Pd.ffill_from None c)) as [|y r] eqn:E; simpl.
      * right. repeat constructor.
      * left. inversion IH; subst. constructor; assumption.
    + right. constructor; [|exact IH]. destruct IH; simpl; auto.
Qed.

Lemma fill_idempotent (c : list cell) :
  Pd.bfill (Pd.ffill (Pd.bfill (Pd.ffill c))) = Pd.bfill (Pd.ffill c).
Proof.
  destruct (fill_known_or_missing c) as [H|H].
  - unfold Pd.ffill at 1. rewrite (ffill_from_known _ _ H). apply bfill_known, H.
  - rewrite (ffill_missing _ H). apply bfill_missing, H.
Qed.

Lemma fillna_known (v : Q) (c : list cell) :
  Forall (fun x => x <> None) c -> Pd.fillna v c = c.
Proof.
  unfold Pd.fillna. induction 1 as [|x c Hx Hc IH]; simpl; [reflexivity|].
  rewrite IH. destruct x; congruence.
Qed.

Lemma fillna_idempotent (v : Q) (c : list cell) :
  Pd.fillna v (Pd.fillna v c) = Pd.fillna v c.
Proof.
  unfold Pd.fillna. rewrite map_map. apply map_ext. intros [w|]; reflexivity.
Qed.

(** The two passes, read through the words of the policy. *)

Lemma filter_known_hd (l : list cell) :
  hd None (filter is_known l) = None -> filter is_known l = [].
Proof.
  induction l as [|[v|] l IH]; simpl; auto. discriminate.
Qed.

Lemma next_known_here (x : cell) (c : list cell) :
  next_known (x :: c) 0 = match x with Some v => Some v | None => next_known c 0 end.
Proof. unfold next_known. destruct x; reflexivity. Qed.

Lemma last_known_here (x : cell) (c : list cell) : last_known (x :: c) 0 = x.
Proof. unfold last_known. destruct x; reflexivity. Qed.

Lemma last_known_later (x : cell) (c : list cell) (i : nat) :
  last_known (x :: c) (S i) =
  match last_known c i with Some v => Some v | None => x end.
Proof.
  unfold last_known.
  change (firstn (S (S i)) (x :: c)) with (x :: firstn (S i) c).
  change (rev (x :: firstn (S i) c)) with (rev (firstn (S i) c) ++ [x]).
  rewrite filter_app.
  destruct (hd None (filter is_known (rev (firstn (S i) c)))) as [v|] eqn:E.
  - destruct (filter is_known (rev (firstn (S i) c))); simpl in *; congruence.
  - rewrite (filter_known_hd _ E). destruct x; reflexivity.
Qed.

Lemma bfill_nth (c : list cell) (i : nat) :
  nth i (Pd.bfill c) None = next_known c i.
Proof.
  revert i. induction c as [|x c IH]; intros i.
  - unfold next_known. destruct i; reflexivity.
  - destruct i as [|i].
    + rewrite next_known_here. destruct x as [v|]; simpl; [reflexivity|].
      rewrite <- IH. destruct (Pd.bfill c); reflexivity.
    + destruct x; simpl; apply IH.
Qed.

Lemma next_known_ffill_none (c : list cell) :
  next_known (Pd.ffill_from None c) 0 = next_known c 0.
Proof.
  induction c as [|[v|] c IH]; simpl; [reflexivity|reflexivity|].
  rewrite !next_known_here. exact IH.
Qed.

Lemma next_known_ffill (last : cell) (c : list cell) (i : nat) :
  (i < List.length c)%nat ->
  next_known (Pd.ffill_from last c) i =
  match match last_known c i with Some v => Some v | None => last end with
  | Some v => Some v
  | None => next_known c i
  end.
Proof.
  revert last i. induction c as [|x c IH]; intros last i Hi; simpl in Hi; [lia|].
  destruct i as [|i].
  - rewrite last_known_here. destruct x as [v|]; simpl; [reflexivity|].
    rewrite !next_known_here. destruct last as [w|]; [reflexivity|].
    apply next_known_ffill_none.
  - rewrite last_known_later.
    assert (Hi' : (i < List.length c)%nat) by lia.
    destruct x as [v|]; simpl.
    + change (next_known (Pd.ffill_from (Some v) c) i = 
              match match match last_known c i with Some v0 => Some v0 | None => Some v end
                    with Some v0 => Some v0 | None => last end
              with Some v0 => Some v0 | None => next_known c i end).
      rewrite (IH (Some v) i Hi'). destruct (last_known c i); reflexivity.
    + change (next_known (Pd.ffill_from last c) i = 
              match match match last_known c i with Some v0 => Some v0 | None => None end
                    with Some v0 => Some v0 | None => last end
              with Some v0 => Some v0 | None => next_known c i end).
      rewrite (IH last i Hi'). destruct (last_known c i); reflexivity.
Qed.

Lemma fill_nth (c : list cell) (i : nat) :
  (i < List.length c)%nat ->
  nth i (Pd.bfill (Pd.ffill c)) None = nearest_known c i.
Proof.
  intros Hi. rewrite bfill_nth. unfold Pd.ffill, nearest_known.
  rewrite (next_known_ffill None c i Hi). destruct (last_known c i); reflexivity.
Qed.

Lemma fill_all_missing (c : list cell) :
  all_missing c -> all_missing (Pd.bfill (Pd.ffill c)).
Proof.
  intros H. rewrite (ffill_missing _ H), (bfill_missing _ H). exact H.
Qed.

(** ** Gap filling *)

Lemma take_known (indexer : list nat) (c : list cell) :
  Forall (fun i => (i < List.length c)%nat) indexer ->
  Forall (fun x => x <> None) c ->
  Forall (fun x => x <> None) (Pd.take None indexer c).
Proof.
  intros Hi Hc. unfold Pd.take. apply Forall_map.
  eapply Forall_impl; [|exact Hi]. intros i Hlt. simpl in Hlt.
  rewrite Forall_forall in Hc. apply Hc, nth_In, Hlt.
Qed.

Lemma take_missing (indexer : list nat) (c : list cell) :
  all_missing c -> all_missing (Pd.take None indexer c).
Proof.
  intros Hc. unfold all_missing, Pd.take. apply Forall_map, Forall_forall.
  intros i _. destruct (Nat.lt_ge_cases i (List.length c)) as [Hlt|Hge].
  - unfold all_missing in Hc. rewrite Forall_forall in Hc. apply Hc, nth_In, Hlt.
  - apply nth_overflow, Hge.
Qed.

Lemma sort_values_complete (df : DataFrame) :
  complete df ->
  Forall (fun nc => Forall (fun x => x <> None) (snd nc)) (columns (Pd.sort_values df)).
Proof.
  intros Hc. simpl. apply Forall_map.
  eapply Forall_impl; [|exact Hc]. intros [n c] [Hl Hk]. simpl in *.
  apply take_known; [|exact Hk].
  apply Forall_forall. intros i Hi. cbv beta. rewrite Hl.
  apply argsort_in_range, Hi.
Qed.

Lemma fill_missing_csi_sorted_again (df : DataFrame) :
  Pd.sort_values (fill_missing_csi df) = fill_missing_csi df.
Proof.
  apply sort_values_ascending_id.
  - apply sort_values_ascending.
  - unfold nrows. simpl. apply Forall_map, Forall_map, Forall_forall.
    intros [n c] _. simpl.
    destruct (is_subcarrier n); simpl; unfold Pd.ffill;
      rewrite ?bfill_length, ?ffill_from_length, !take_length; reflexivity.
Qed.

Lemma fill_missing_bitrate_sorted_again (df : DataFrame) :
  Pd.sort_values (fill_missing_bitrate df) = fill_missing_bitrate df.
Proof.
  apply sort_values_ascending_id.
  - apply sort_values_ascending.
  - unfold nrows. simpl. apply Forall_map, Forall_map, Forall_forall.
    intros [n c] _. simpl.
    destruct (is_bitrate n); simpl;
      unfold Pd.fillna; rewrite ?length_map, !take_length; reflexivity.
Qed.

Lemma bfill_ffill_columns_known (cols : list (string * list cell)) :
  Forall (fun nc => Forall (fun x => x <> None) (snd nc)) cols ->
  map (fun nc => if is_subcarrier (fst nc)
                 then (fst nc, Pd.bfill (Pd.ffill (snd nc)))
                 else nc) cols = cols.
Proof.
  induction 1 as [|[n c] cols Hc Hcs IH]; simpl; [reflexivity|].
  rewrite IH. simpl in Hc. unfold Pd.ffill.
  rewrite (ffill_from_known _ _ Hc), (bfill_known _ Hc).
  destruct (is_subcarrier n); reflexivity.
Qed.

Lemma fillna_columns_known (cols : list (string * list cell)) :
  Forall (fun nc => Forall (fun x => x <> None) (snd nc)) cols ->
  map (fun nc => if is_bitrate (fst nc)
                 then (fst nc, Pd.fillna 0 (snd nc))
                 else nc) cols = cols.
Proof.
  induction 1 as [|[n c] cols Hc Hcs IH]; simpl; [reflexivity|].
  rewrite IH. simpl in Hc. rewrite (fillna_known _ _ Hc).
  destruct (is_bitrate n); reflexivity.
Qed.

(** C3 (fill_missing_csi, lines 212-215).  Every subcarrier column of the
    table is filled on its own: with [sorted] the column in timestamp order,
    the output column is the forward fill of [sorted] filled backward, so
    each row holds the last known value at or before it and, where there is
    none, the next known value after it; a column with no known value at
    all stays entirely missing. *)
Theorem fill_missing_csi_forward_then_backward
  (df : DataFrame) (k : nat) (name : string) (col : list cell) :
  nth_error (columns df) k = Some (name, col) ->
  is_subcarrier name = true ->
  let sorted := Pd.take None (Pd.argsort (timestamp df)) col in
  exists filled,
    nth_error (columns (fill_missing_csi df)) k = Some (name, filled) /\
    filled = Pd.bfill (Pd.ffill sorted) /\
    List.length filled = nrows df /\
    (forall i, (i < nrows df)%nat -> nth i filled None = nearest_known sorted i) /\
    (all_missing col -> all_missing filled).
Proof.
  intros Hk Hn sorted.
  assert (Hlen : List.length sorted = nrows df).
  { unfold sorted. rewrite take_length. apply argsort_length. }
  exists (Pd.bfill (Pd.ffill sorted)). repeat split.
  - simpl. rewrite !nth_error_map, Hk. simpl. rewrite Hn. reflexivity.
  - unfold Pd.ffill. rewrite bfill_length, ffill_from_length. exact Hlen.
  - intros i Hi. apply fill_nth. rewrite Hlen. exact Hi.
  - intros Hm. apply fill_all_missing, take_missing, Hm.
Qed.

Lemma fill_missing_csi_forward_then_backward_witness :
  exists filled,
    nth_error (columns (fill_missing_csi csi_with_gaps)) 1 =
      Some ("subcarrier_1"%string, filled) /\
    filled = Pd.bfill (Pd.ffill [None; None; None; None]) /\
    List.length filled = 4%nat /\
    (forall i, (i < 4)%nat ->
       nth i filled None = nearest_known [None; None; None; None] i) /\
    (all_missing [None; None; None; None] -> all_missing filled).
Proof.
  apply (fill_missing_csi_forward_then_backward csi_with_gaps 1
           "subcarrier_1" [None; None; None; None]); reflexivity.
Defined.

(** C4 (fill_missing_csi and fill_missing_bitrate, lines 194-238).  Filling
    is idempotent: either fill applied twice equals the fill applied once,
    and on a table with no missing value either fill returns the table in
    timestamp order (the table itself when its rows are already in order). *)
Theorem gap_filling_idempotent (df : DataFrame) :
  (fill_missing_csi (fill_missing_csi df) = fill_missing_csi df /\
   fill_missing_bitrate (fill_missing_bitrate df) = fill_missing_bitrate df) /\
  (complete df ->
   fill_missing_csi df = Pd.sort_values df /\
   fill_missing_bitrate df = Pd.sort_values df /\
   (ascending (timestamp df) ->
    fill_missing_csi df = df /\ fill_missing_bitrate df = df)).
Proof.
  split; [split|].
  - unfold fill_missing_csi at 1. rewrite fill_missing_csi_sorted_again.
    unfold fill_missing_csi. simpl. f_equal.
    rewrite !map_map. apply map_ext. intros [n c]. simpl.
    destruct (is_subcarrier n) eqn:E; simpl; rewrite E; [|reflexivity].
    rewrite fill_idempotent. reflexivity.
  - unfold fill_missing_bitrate at 1. rewrite fill_missing_bitrate_sorted_again.
    unfold fill_missing_bitrate. simpl. f_equal.
    rewrite !map_map. apply map_ext. intros [n c]. simpl.
    destruct (is_bitrate n) eqn:E; simpl; rewrite E; [|reflexivity].
    rewrite fillna_idempotent. reflexivity.
  - intros Hc.
    assert (Hk := sort_values_complete df Hc).
    assert (H1 : fill_missing_csi df = Pd.sort_values df).
    { unfold fill_missing_csi. rewrite (bfill_ffill_columns_known _ Hk).
      destruct (Pd.sort_values df); reflexivity. }
    assert (H2 : fill_missing_bitrate df = Pd.sort_values df).
    { unfold fill_missing_bitrate. rewrite (fillna_columns_known _ Hk).
      destruct (Pd.sort_values df); reflexivity. }
    split; [exact H1|split; [exact H2|]].
    intros Hs.
    assert (H3 : Pd.sort_values df = df).
    { apply sort_values_ascending_id; [exact Hs|].
      eapply Forall_impl; [|exact Hc]. intros nc [Hl _]. exact Hl. }
    rewrite H1, H2, H3. split; reflexivity.
Qed.

Lemma bitrate_full_complete : complete bitrate_full.
Proof.
  repeat constructor; discriminate.
Qed.

Lemma gap_filling_idempotent_witness :
  fill_missing_csi bitrate_full = Pd.sort_values bitrate_full /\
  fill_missing_bitrate bitrate_full = Pd.sort_values bitrate_full.
Proof.
  destruct (proj2 (gap_filling_idempotent bitrate_full) bitrate_full_complete)
    as [H1 [H2 _]].
  split; [exact H1|exact H2].
Defined.

(** C9 (fill_missing_csi and fill_missing_bitrate, lines 212-215 and
    234-238).  Gap filling never makes a timestamp: the output of either
    fill has as many rows as the input, the same timestamps with the same
    multiplicities, in ascending order, and the same columns under the same
    names, each as long as the table. *)
Theorem gap_filling_keeps_timestamps (df : DataFrame) :
  (nrows (fill_missing_csi df) = nrows df /\
   Permutation (timestamp df) (timestamp (fill_missing_csi df)) /\
   ascending (timestamp (fill_missing_csi df)) /\
   column_names (fill_missing_csi df) = column_names df /\
   Forall (fun nc => List.length (snd nc) = nrows df)
          (columns (fill_missing_csi df))) /\
  (nrows (fill_missing_bitrate df) = nrows df /\
   Permutation (timestamp df) (timestamp (fill_missing_bitrate df)) /\
   ascending (timestamp (fill_missing_bitrate df)) /\
   column_names (fill_missing_bitrate df) = column_names df /\
   Forall (fun nc => List.length (snd nc) = nrows df)
          (columns (fill_missing_bitrate df))).
Proof.
  split.
  - split; [apply sort_values_nrows|].
    split; [apply sort_values_perm|].
    split; [apply sort_values_ascending|].
    split.
    + rewrite <- (sort_values_names df). unfold column_names, fill_missing_csi.
      simpl. rewrite !map_map. apply map_ext. intros [n c]. simpl.
      destruct (is_subcarrier n); reflexivity.
    + unfold fill_missing_csi. cbn [columns].
      apply Forall_map. eapply Forall_impl; [|apply sort_values_column_length].
      intros [n c] H. simpl in *. destruct (is_subcarrier n); simpl; [|exact H].
      unfold Pd.ffill. rewrite bfill_length, ffill_from_length. exact H.
  - split; [apply sort_values_nrows|].
    split; [apply sort_values_perm|].
    split; [apply sort_values_ascending|].
    split.
    + rewrite <- (sort_values_names df). unfold column_names, fill_missing_bitrate.
      simpl. rewrite !map_map. apply map_ext. intros [n c]. simpl.
      destruct (is_bitrate n); reflexivity.
    + unfold fill_missing_bitrate. cbn [columns].
      apply Forall_map. eapply Forall_impl; [|apply sort_values_column_length].
      intros [n c] H. simpl in *. destruct (is_bitrate n); simpl; [|exact H].
      unfold Pd.fillna. rewrite length_map. exact H.
Qed.

(** ** Rounding to the grid *)

Lemma rint_comp (q q' : Q) : q == q' -> Np.rint q = Np.rint q'.
Proof.
  intros E. unfold Np.rint. rewrite (Qfloor_comp _ _ E).
  assert (E' : q - inject_Z (Qfloor q') == q' - inject_Z (Qfloor q'))
    by (rewrite E; reflexivity).
  rewrite (Qcompare_comp _ _ E' _ _ (Qeq_refl (1 # 2))). reflexivity.
Qed.

Lemma rint_near (q : Q) :
  inject_Z (Np.rint q) - (1 # 2) <= q /\ q <= inject_Z (Np.rint q) + (1 # 2).
Proof.
  unfold Np.rint.
  assert (Hlo := Qfloor_le q). assert (Hhi := Qlt_floor q).
  rewrite inject_Z_plus in Hhi. change (inject_Z 1) with 1 in Hhi.
  destruct (Qcompare (q - inject_Z (Qfloor q)) (1 # 2)) eqn:E.
  - apply Qeq_alt in E.
    destruct (Z.even (Qfloor q)); rewrite ?inject_Z_plus;
      change (inject_Z 1) with 1; split; lra.
  - apply Qlt_alt in E. split; lra.
  - apply Qgt_alt in E. rewrite inject_Z_plus. change (inject_Z 1) with 1.
    split; lra.
Qed.

Lemma rint_mono (q q' : Q) : q <= q' -> (Np.rint q <= Np.rint q')%Z.
Proof.
  intros Hle.
  destruct (Z_le_gt_dec (Np.rint q) (Np.rint q')) as [H|H]; [exact H|].
  exfalso.
  assert (H1 : (Np.rint q' + 1 <= Np.rint q)%Z) by lia.
  rewrite Zle_Qle, inject_Z_plus in H1.
  change (inject_Z 1) with 1 in H1.
  destruct (rint_near q) as [Ha _]. destruct (rint_near q') as [_ Hb].
  assert (E : q == q') by lra.
  apply rint_comp in E. lia.
Qed.

Lemma rint_Z (z : Z) : Np.rint (inject_Z z) = z.
Proof.
  unfold Np.rint. rewrite Qfloor_Z.
  assert (E : inject_Z z - inject_Z z == 0) by ring.
  rewrite (Qcompare_comp _ _ E _ _ (Qeq_refl (1 # 2))). reflexivity.
Qed.

Lemma round_to_comp (ti t t' : Q) : t == t' -> round_to ti t == round_to ti t'.
Proof.
  intros E. unfold round_to.
  rewrite (rint_comp (t / ti) (t' / ti)) by (rewrite E; reflexivity).
  reflexivity.
Qed.

Lemma round_to_mono (ti t t' : Q) :
  0 < ti -> t <= t' -> round_to ti t <= round_to ti t'.
Proof.
  intros Hti Hle. unfold round_to.
  apply Qmult_le_compat_r; [|lra].
  rewrite <- Zle_Qle. apply rint_mono.
  unfold Qdiv. apply Qmult_le_compat_r; [exact Hle|].
  apply Qlt_le_weak, Qinv_lt_0_compat, Hti.
Qed.

(** ** Extremes of an array *)

Lemma Qmin_b_cases (x y : Q) :
  (Np.Qmin_b x y = x /\ x <= y) \/ (Np.Qmin_b x y = y /\ y <= x).
Proof.
  unfold Np.Qmin_b. destruct (Qle_bool x y) eqn:E.
  - left. split; [reflexivity|apply Qle_bool_iff, E].
  - right. split; [reflexivity|].
    apply Qlt_le_weak, Qnot_le_lt. intro H. apply Qle_bool_iff in H. congruence.
Qed.

Lemma Qmax_b_cases (x y : Q) :
  (Np.Qmax_b x y = y /\ x <= y) \/ (Np.Qmax_b x y = x /\ y <= x).
Proof.
  unfold Np.Qmax_b. destruct (Qle_bool x y) eqn:E.
  - left. split; [reflexivity|apply Qle_bool_iff, E].
  - right. split; [reflexivity|].
    apply Qlt_le_weak, Qnot_le_lt. intro H. apply Qle_bool_iff in H. congruence.
Qed.

Lemma fold_min_spec (l : list Q) (x : Q) :
  In (fold_left Np.Qmin_b l x) (x :: l) /\
  Forall (fun y => fold_left Np.Qmin_b l x <= y) (x :: l).
Proof.
  revert x. induction l as [|y l IH]; intros x; simpl.
  - split; [left; reflexivity|]. constructor; [lra|constructor].
  - destruct (IH (Np.Qmin_b x y)) as [Hin Hall].
    inversion Hall as [|? ? Hm Hl]; subst.
    destruct (Qmin_b_cases x y) as [[E Hxy]|[E Hxy]]; rewrite E in *.
    + split; [destruct Hin as [Hin|Hin]; auto|].
      constructor; [exact Hm|]. constructor; [lra|exact Hl].
    + split; [destruct Hin as [Hin|Hin]; auto|].
      constructor; [lra|]. constructor; [exact Hm|exact Hl].
Qed.

Lemma fold_max_spec (l : list Q) (x : Q) :
  In (fold_left Np.Qmax_b l x) (x :: l) /\
  Forall (fun y => y <= fold_left Np.Qmax_b l x) (x :: l).
Proof.
  revert x. induction l as [|y l IH]; intros x; simpl.
  - split; [left; reflexivity|]. constructor; [lra|constructor].
  - destruct (IH (Np.Qmax_b x y)) as [Hin Hall].
    inversion Hall as [|? ? Hm Hl]; subst.
    destruct (Qmax_b_cases x y) as [[E Hxy]|[E Hxy]]; rewrite E in *.
    + split; [destruct Hin as [Hin|Hin]; auto|].
      constructor; [lra|]. constructor; [exact Hm|exact Hl].
    + split; [destruct Hin as [Hin|Hin]; auto|].
      constructor; [exact Hm|]. constructor; [lra|exact Hl].
Qed.

Lemma min_spec (l : list Q) (m : Q) :
  Np.min l = Ok m -> In m l /\ Forall (fun y => m <= y) l.
Proof.
  destruct l as [|x l]; simpl; intros H; [discriminate|].
  inversion H; subst. apply fold_min_spec.
Qed.

Lemma max_spec (l : list Q) (m : Q) :
  Np.max l = Ok m -> In m l /\ Forall (fun y => y <= m) l.
Proof.
  destruct l as [|x l]; simpl; intros H; [discriminate|].
  inversion H; subst. apply fold_max_spec.
Qed.

Lemma min_total (l : list Q) : l <> [] -> exists m, Np.min l = Ok m.
Proof. destruct l; [congruence|]. intros _. eexists. reflexivity. Qed.

Lemma max_total (l : list Q) : l <> [] -> exists m, Np.max l = Ok m.
Proof. destruct l; [congruence|]. intros _. eexists. reflexivity. Qed.

(** The extremes of the rounded timestamps are the rounded extremes. *)
Lemma min_rounded (ti : Q) (ts : list Q) (lo rlo : Q) :
  0 < ti -> Np.min ts = Ok lo -> Np.min (map (round_to ti) ts) = Ok rlo ->
  rlo == round_to ti lo.
Proof.
  intros Hti Hlo Hrlo.
  apply min_spec in Hlo. destruct Hlo as [Hin Hall].
  apply min_spec in Hrlo. destruct Hrlo as [Hrin Hrall].
  apply in_map_iff in Hrin. destruct Hrin as [t [Et Ht]]. subst rlo.
  rewrite Forall_forall in Hall, Hrall.
  apply Qle_antisym.
  - apply Hrall, in_map, Hin.
  - apply round_to_mono; [exact Hti|apply Hall, Ht].
Qed.

Lemma max_rounded (ti : Q) (ts : list Q) (hi rhi : Q) :
  0 < ti -> Np.max ts = Ok hi -> Np.max (map (round_to ti) ts) = Ok rhi ->
  rhi == round_to ti hi.
Proof.
  intros Hti Hhi Hrhi.
  apply max_spec in Hhi. destruct Hhi as [Hin Hall].
  apply max_spec in Hrhi. destruct Hrhi as [Hrin Hrall].
  apply in_map_iff in Hrin. destruct Hrin as [t [Et Ht]]. subst rhi.
  rewrite Forall_forall in Hall, Hrall.
  apply Qle_antisym.
  - apply round_to_mono; [exact Hti|apply Hall, Ht].
  - apply Hrall, in_map, Hin.
Qed.

(** ** Grouping and reindexing *)

Lemma Qeq_bool_false (x y : Q) : Qeq_bool x y = false -> ~ x == y.
Proof. intros E H. apply Qeq_bool_iff in H. congruence. Qed.

Lemma has_time_perm (t : Q) (l l' : list Q) :
  Permutation l l' -> has_time t l -> has_time t l'.
Proof.
  intros Hp [u [Hin E]]. exists u. split; [|exact E].
  eapply Permutation_in; eassumption.
Qed.

Lemma has_time_cons (t x : Q) (l : list Q) :
  has_time t (x :: l) <-> x == t \/ has_time t l.
Proof.
  split.
  - intros [u [[E|Hin] Hu]]; [left; subst; exact Hu|right; exists u; auto].
  - intros [E|[u [Hin Hu]]]; [exists x|exists u]; simpl; auto.
Qed.

Lemma drop_repeats_has (t prev : Q) (l : list Q) :
  has_time t (prev :: Pd.drop_repeats prev l) <-> has_time t (prev :: l).
Proof.
  revert prev. induction l as [|y l IH]; intros prev; simpl; [tauto|].
  destruct (Qeq_bool prev y) eqn:E.
  - rewrite IH, !has_time_cons. apply Qeq_bool_iff in E.
    split; [tauto|]. intros [H|[H|H]]; auto.
    left. rewrite E. exact H.
  - rewrite has_time_cons, IH, !has_time_cons. tauto.
Qed.

Lemma group_keys_has (t : Q) (keys : list Q) :
  has_time t (Pd.group_keys keys) <-> has_time t keys.
Proof.
  unfold Pd.group_keys.
  assert (Hp := sort_by_perm (fun u : Q => u) keys).
  destruct (Pd.sort_by (fun u : Q => u) keys) as [|x l].
  - apply Permutation_sym, Permutation_nil in Hp. subst. tauto.
  - rewrite drop_repeats_has. split; apply has_time_perm;
      [apply Permutation_sym|]; exact Hp.
Qed.

Lemma get_loc_some (label : Q) (index : list Q) (p : nat) :
  Pd.get_loc label index = Some p ->
  (p < List.length index)%nat /\ nth p index 0 == label.
Proof.
  revert p. induction index as [|k index IH]; intros p; simpl; [discriminate|].
  destruct (Qeq_bool k label) eqn:E.
  - intros H. inversion H; subst. split; [lia|apply Qeq_bool_iff, E].
  - destruct (Pd.get_loc label index) as [p'|]; simpl; [|discriminate].
    intros H. inversion H; subst. destruct (IH p' eq_refl). split; [lia|assumption].
Qed.

Lemma get_loc_none (label : Q) (index : list Q) :
  Pd.get_loc label index = None -> ~ has_time label index.
Proof.
  induction index as [|k index IH]; simpl; intros H [u [Hin E]]; [contradiction|].
  destruct (Qeq_bool k label) eqn:Ek; [discriminate|].
  destruct (Pd.get_loc label index); [discriminate|].
  destruct Hin as [Hin|Hin].
  - subst. apply Qeq_bool_false in Ek. contradiction.
  - apply IH; [reflexivity|]. exists u. auto.
Qed.

Lemma group_comp {A : Type} (keys : list Q) (col : list A) (k l : Q) :
  k == l -> Pd.group keys col k = Pd.group keys col l.
Proof.
  intros E. unfold Pd.group. f_equal. apply filter_ext. intros [t a]. simpl.
  destruct (Qeq_bool t l) eqn:El.
  - apply Qeq_bool_iff. apply Qeq_bool_iff in El. rewrite E. exact El.
  - destruct (Qeq_bool t k) eqn:Ek; [|reflexivity].
    apply Qeq_bool_iff in Ek. apply Qeq_bool_false in El.
    exfalso. apply El. rewrite <- E. exact Ek.
Qed.


(** A grid row holds the aggregate of the raw rows that round to its label,
    and the missing-value marker when no raw row does. *)
Lemma reindex_groupby_found {A : Type} (agg : list A -> cell) (keys : list Q)
  (col : list A) (labels : list Q) (i : nat) (l : Q) :
  nth_error labels i = Some l ->
  has_time l keys ->
  nth_error (Pd.reindex_column (Pd.group_keys keys) labels
               (Pd.groupby_agg agg keys col)) i =
  Some (agg (Pd.group keys col l)).
Proof.
  intros Hl Hk. unfold Pd.reindex_column. rewrite nth_error_map, Hl. simpl.
  destruct (Pd.get_loc l (Pd.group_keys keys)) as [p|] eqn:E.
  - apply get_loc_some in E. destruct E as [Hp Ep].
    unfold Pd.groupby_agg.
    rewrite (nth_indep _ None (agg (Pd.group keys col 0)))
      by (rewrite length_map; exact Hp).
    rewrite (map_nth (fun k => agg (Pd.group keys col k))).
    rewrite (group_comp keys col _ _ Ep). reflexivity.
  - apply get_loc_none in E. exfalso. apply E, group_keys_has, Hk.
Qed.


Lemma reindex_column_length (index labels : list Q) (c : list cell) :
  List.length (Pd.reindex_column index labels c) = List.length labels.
Proof. apply length_map. Qed.

(** ** The timeline *)

Lemma arange_grid (ti rlo rhi : Q) (a b : Z) :
  0 < ti -> (a <= b)%Z ->
  rlo == inject_Z a * ti -> rhi == inject_Z b * ti ->
  exists grid,
    Np.arange rlo (rhi + ti) ti = Ok grid /\
    List.length grid = Z.to_nat (b - a + 1) /\
    (forall i, (i < List.length grid)%nat ->
       exists l, nth_error grid i = Some l /\
                 l == inject_Z (a + Z.of_nat i) * ti).
Proof.
  intros Hti Hab Ea Eb. unfold Np.arange.
  destruct (Qeq_bool ti 0) eqn:E0.
  { apply Qeq_bool_iff in E0. lra. }
  assert (Hlen : Np.arange_len rlo (rhi + ti) ti = Z.to_nat (b - a + 1)).
  { unfold Np.arange_len. f_equal.
    rewrite <- (Qceiling_Z (b - a + 1)). apply Qceiling_comp.
    rewrite Ea, Eb. unfold Z.sub. rewrite !inject_Z_plus, inject_Z_opp.
    change (inject_Z 1) with 1. field. lra. }
  eexists. split; [reflexivity|]. rewrite length_map, length_seq, Hlen.
  split; [reflexivity|].
  intros i Hi. eexists. split.
  - rewrite nth_error_map, nth_error_seq.
    destruct (Nat.ltb_spec i (Z.to_nat (b - a + 1))); [|lia]. reflexivity.
  - simpl. rewrite Ea, inject_Z_plus. ring.
Qed.

Lemma full_timeline (ti : Q) (ts : list Q) :
  0 < ti -> ts <> [] ->
  exists lo hi rlo rhi grid,
    Np.min ts = Ok lo /\ Np.max ts = Ok hi /\
    Np.min (map (round_to ti) ts) = Ok rlo /\
    Np.max (map (round_to ti) ts) = Ok rhi /\
    Np.arange rlo (rhi + ti) ti = Ok grid /\
    List.length grid =
      Z.to_nat (Qfloor ((round_to ti hi - round_to ti lo) / ti) + 1) /\
    List.length grid = Z.to_nat (Np.rint (hi / ti) - Np.rint (lo / ti) + 1) /\
    (forall i, (i < List.length grid)%nat ->
       exists l, nth_error grid i = Some l /\
                 l == inject_Z (Np.rint (lo / ti) + Z.of_nat i) * ti).
Proof.
  intros Hti Hne.
  destruct (min_total ts Hne) as [lo Hlo]. destruct (max_total ts Hne) as [hi Hhi].
  assert (Hne' : map (round_to ti) ts <> []) by (destruct ts; [congruence|discriminate]).
  destruct (min_total _ Hne') as [rlo Hrlo]. destruct (max_total _ Hne') as [rhi Hrhi].
  assert (Ea := min_rounded ti ts lo rlo Hti Hlo Hrlo).
  assert (Eb := max_rounded ti ts hi rhi Hti Hhi Hrhi).
  assert (Hle : lo <= hi).
  { destruct (min_spec _ _ Hlo) as [Hin _]. destruct (max_spec _ _ Hhi) as [_ Hall].
    rewrite Forall_forall in Hall. apply Hall, Hin. }
  assert (Hab : (Np.rint (lo / ti) <= Np.rint (hi / ti))%Z).
  { apply rint_mono. unfold Qdiv. apply Qmult_le_compat_r; [exact Hle|].
    apply Qlt_le_weak, Qinv_lt_0_compat, Hti. }
  destruct (arange_grid ti rlo rhi _ _ Hti Hab Ea Eb) as [grid [Hg [Hlen Hnth]]].
  exists lo, hi, rlo, rhi, grid.
  repeat (split; [assumption|]).
  split; [|split; [exact Hlen|exact Hnth]].
  rewrite Hlen. f_equal. f_equal.
  rewrite <- (Qfloor_Z (Np.rint (hi / ti) - Np.rint (lo / ti))).
  apply Qfloor_comp. unfold round_to, Z.sub.
  rewrite inject_Z_plus, inject_Z_opp. field. lra.
Qed.

Lemma aggregation_supported (m : string) :
  supported m -> exists agg, aggregation m = Ok agg.
Proof.
  intros [E|E]; subst m.
  - exists Pd.mean. reflexivity.
  - exists Pd.first. reflexivity.
Qed.

Lemma linspace_int_ok (start stop num : Z) :
  (0 <= num)%Z -> exists idx, Np.linspace_int start stop num = Ok idx.
Proof.
  intros H. unfold Np.linspace_int.
  destruct (Z.ltb_spec num 0); [lia|]. eexists. reflexivity.
Qed.

Lemma select_subcarriers_ok (csi_data : list (list Q)) (n : option Z) :
  valid_count n ->
  exists data k,
    select_subcarriers csi_data n = Ok (data, k) /\
    List.length data = List.length csi_data.
Proof.
  intros Hn. unfold select_subcarriers. destruct n as [n|].
  - destruct (n <? Z.of_nat (shape1 csi_data))%Z.
    + unfold subcarrier_indices.
      destruct (linspace_int_ok 0 (Z.of_nat (shape1 csi_data) - 1) n Hn) as [idx E].
      rewrite E. simpl. eexists. eexists. split; [reflexivity|apply length_map].
    + eexists. eexists. split; reflexivity.
  - eexists. eexists. split; reflexivity.
Qed.






(** ** Bitrate buckets *)





(** C10 (calculate_bitrate_and_align, lines 95-100).  The call changes the
    caller's table: afterwards its packet-length column is lower by
    [header_adjust] and it holds a "timestamp" column of the rounded times,
    whatever the call returns; a second call on the same table lowers the
    lengths by [header_adjust] once more. *)
Theorem calculate_bitrate_and_align_mutates_input (bitrate_df : BitrateFrame)
  (time_interval : Q) (header_adjust : Z) :
  let after :=
    fst (calculate_bitrate_and_align bitrate_df time_interval header_adjust) in
  let after2 :=
    fst (calculate_bitrate_and_align after time_interval header_adjust) in
  ws_col_Length after =
    map (fun l => (l - header_adjust)%Z) (ws_col_Length bitrate_df) /\
  br_timestamp after =
    Some (map (round_to time_interval) (frame_time bitrate_df)) /\
  frame_time after = frame_time bitrate_df /\
  ws_col_Length after2 =
    map (fun l => (l - header_adjust - header_adjust)%Z) (ws_col_Length bitrate_df).
Proof.
  cbn. repeat split. rewrite map_map. reflexivity.
Qed.

(** ** The aggregation-method check *)

Lemma aggregation_unsupported (m : string) :
  ~ supported m ->
  aggregation m =
  Raise (ValueError "aggregation_method must be either 'mean' or 'first'").
Proof.
  intros H. unfold aggregation.
  destruct (String.eqb_spec m "mean") as [E|_].
  { exfalso. apply H. left. exact E. }
  destruct (String.eqb_spec m "first") as [E|_].
  { exfalso. apply H. right. exact E. }
  reflexivity.
Qed.

Lemma select_subcarriers_raise (csi_data : list (list Q)) (n : option Z) (e : exn) :
  select_subcarriers csi_data n = Raise e ->
  e = ValueError "Number of samples must be non-negative.".
Proof.
  unfold select_subcarriers, subcarrier_indices, Np.linspace_int.
  destruct n as [n|]; [|discriminate].
  destruct (n <? Z.of_nat (shape1 csi_data))%Z; [|discriminate].
  destruct (n <? 0)%Z; simpl; intros H; inversion H; reflexivity.
Qed.

(** C6, as the code has it (align_csi_magnitude, lines 54-60).  An
    unsupported aggregation method always ends in an error, before any grid
    is produced, and that error is the aggregation-method rejection whenever
    the timestamps match the rows and the subcarrier count is not negative;
    a supported method never triggers this rejection, whatever the data; and
    on a non-empty capture with matching timestamps, a subcarrier count that
    is not negative and a non-zero interval, an error is raised if and only
    if the method is neither "mean" nor "first". *)
Theorem aggregation_method_rejection (csi_data : list (list Q))
  (csi_timestamps : list Q) (time_interval : Q) (n_subcarriers : option Z)
  (aggregation_method : string) :
  let call := align_csi_magnitude csi_data csi_timestamps time_interval
                n_subcarriers aggregation_method in
  let rejection :=
    ValueError "aggregation_method must be either 'mean' or 'first'" in
  (~ supported aggregation_method -> raises call) /\
  (supported aggregation_method -> call <> Raise rejection) /\
  (List.length csi_timestamps = List.length csi_data ->
   valid_count n_subcarriers ->
   (~ supported aggregation_method -> call = Raise rejection) /\
   (csi_timestamps <> [] -> ~ time_interval == 0 ->
    (raises call <-> ~ supported aggregation_method))).
Proof.
  intros call rejection. subst call rejection. unfold align_csi_magnitude.
  split; [|split].
  - intros Hm. rewrite (aggregation_unsupported _ Hm).
    destruct (select_subcarriers csi_data n_subcarriers) as [sel|e]; cbn [bind].
    + destruct (negb _); eexists; reflexivity.
    + eexists. reflexivity.
  - intros Hm. destruct (aggregation_supported _ Hm) as [agg Hagg]. rewrite Hagg.
    destruct (select_subcarriers csi_data n_subcarriers) as [sel|e] eqn:Hsel;
      cbn [bind].
    + destruct (negb _); [discriminate|].
      destruct (map (round_to time_interval) csi_timestamps) as [|t r];
        cbn [Np.min Np.max bind]; [discriminate|].
      unfold Np.arange. destruct (Qeq_bool time_interval 0); discriminate.
    + apply select_subcarriers_raise in Hsel. subst e. discriminate.
  - intros Hlen Hn.
    destruct (select_subcarriers_ok csi_data n_subcarriers Hn) as [data [k [Hsel Hd]]].
    rewrite Hsel. cbn [bind fst snd].
    rewrite length_map, Hlen, Hd, Nat.eqb_refl. cbn [negb].
    split.
    + intros Hm. rewrite (aggregation_unsupported _ Hm). reflexivity.
    + intros Hne Hti. split.
      * intros [e He] Hm. destruct (aggregation_supported _ Hm) as [agg Hagg].
        rewrite Hagg in He. cbn [bind] in He.
        destruct (map (round_to time_interval) csi_timestamps) as [|t r] eqn:Er.
        { destruct csi_timestamps; [congruence|discriminate]. }
        cbn [Np.min Np.max bind] in He. unfold Np.arange in He.
        destruct (Qeq_bool time_interval 0) eqn:E0; [|discriminate].
        apply Qeq_bool_iff in E0. contradiction.
      * intros Hm. rewrite (aggregation_unsupported _ Hm). eexists. reflexivity.
Qed.

Lemma aggregation_method_rejection_witness :
  (raises (align_csi_magnitude [[1]; [2]] [4 # 100; 6 # 100] (1 # 10) None "median")
   <-> ~ supported "median") /\
  align_csi_magnitude [[1]; [2]] [4 # 100; 6 # 100] (1 # 10) None "mean" <>
    Raise (ValueError "aggregation_method must be either 'mean' or 'first'").
Proof.
  split.
  - apply (proj2 (proj2 (aggregation_method_rejection
             [[1]; [2]] [4 # 100; 6 # 100] (1 # 10) None "median")));
      [reflexivity|exact I|discriminate|discriminate].
  - apply (proj1 (proj2 (aggregation_method_rejection
             [[1]; [2]] [4 # 100; 6 # 100] (1 # 10) None "mean"))).
    left. reflexivity.
Defined.

(** C6, as stated, fails: with the method "mean", [align_csi_magnitude]
    raises on an empty capture (at the minimum of the rounded timestamps,
    line 63) and on a capture with more timestamps than rows (at the
    assignment of the timestamp column, line 52). *)
Lemma supported_method_can_raise :
  ~ (raises (align_csi_magnitude [] [] (1 # 10) None "mean") <->
     ("mean"%string <> "mean"%string /\ "mean"%string <> "first"%string)) /\
  ~ (raises (align_csi_magnitude [[1]; [2]] [0; 1; 2] (1 # 10) None "mean") <->
     ("mean"%string <> "mean"%string /\ "mean"%string <> "first"%string)).
Proof.
  split; intros [H _].
  - assert (Hr : raises (align_csi_magnitude [] [] (1 # 10) None "mean"))
      by (eexists; reflexivity).
    destruct (H Hr) as [Hm _]. apply Hm. reflexivity.
  - assert (Hr : raises (align_csi_magnitude [[1]; [2]] [0; 1; 2] (1 # 10)
                           None "mean"))
      by (eexists; reflexivity).
    destruct (H Hr) as [Hm _]. apply Hm. reflexivity.
Qed.

(** ** Subcarrier subsetting *)






(** ** The join *)

Lemma matches_length (t : Q) (right : list Q) :
  List.length (matches t right) = occurrences t right.
Proof.
  unfold matches, occurrences, indexed. rewrite length_map.
  generalize O. induction right as [|u r IH]; intros s; simpl; [reflexivity|].
  destruct (Qeq_bool t u); simpl; rewrite IH; reflexivity.
Qed.

Lemma inner_join_length (left right : list Q) :
  List.length (join_indexers inner left right) =
  list_sum (map (fun t => occurrences t right) left).
Proof.
  unfold join_indexers. rewrite length_flat_map.
  rewrite <- (map_snd_combine (seq 0 (List.length left)) left) at 2
    by apply length_seq.
  fold (indexed left). rewrite map_map. f_equal. apply map_ext.
  intros [i t]. cbn [fst snd]. rewrite <- matches_length.
  destruct (matches t right); [reflexivity|apply length_map].
Qed.

Lemma list_sum_map_add {A : Type} (f g : A -> nat) (l : list A) :
  list_sum (map (fun x => (f x + g x)%nat) l) =
  (list_sum (map f l) + list_sum (map g l))%nat.
Proof. induction l as [|x l IH]; simpl; [reflexivity|]. rewrite IH. lia. Qed.

Lemma occurrences_sum (t : Q) (l : list Q) :
  occurrences t l =
  list_sum (map (fun u => if Qeq_bool u t then 1%nat else 0%nat) l).
Proof.
  unfold occurrences. induction l as [|u l IH]; simpl; [reflexivity|].
  rewrite (Qeq_bool_comm u t). destruct (Qeq_bool t u); simpl; rewrite IH; reflexivity.
Qed.

(** Counting the matching pairs row by row on either side gives the same. *)
Lemma matching_pairs_swap (left right : list Q) :
  list_sum (map (fun t => occurrences t right) left) =
  list_sum (map (fun u => occurrences u left) right).
Proof.
  induction left as [|t left IH]; simpl.
  - induction right as [|u r IHr]; simpl; [reflexivity|exact IHr].
  - rewrite IH, occurrences_sum, <- list_sum_map_add. f_equal.
    apply map_ext. intros u. unfold occurrences. simpl.
    destruct (Qeq_bool u t); reflexivity.
Qed.

Lemma occurrences_above (t x : Q) (l : list Q) :
  Forall (Qlt x) l -> x == t -> occurrences t l = 0%nat.
Proof.
  unfold occurrences. induction 1 as [|y l Hy Hl IH]; intros E; simpl; [reflexivity|].
  destruct (Qeq_bool t y) eqn:Ey; [|apply IH, E].
  apply Qeq_bool_iff in Ey. lra.
Qed.

Lemma occurrences_increasing (t : Q) (l : list Q) :
  increasing l -> (occurrences t l <= 1)%nat.
Proof.
  intros Hs. apply Sorted_StronglySorted in Hs;
    [|intros x y z; apply Qlt_trans].
  induction Hs as [|x l Hl IH Hx]; [unfold occurrences; simpl; lia|].
  unfold occurrences in *. simpl.
  destruct (Qeq_bool t x) eqn:E; [|exact IH].
  apply Qeq_bool_iff in E. simpl.
  assert (H0 := occurrences_above t x l Hx (Qeq_sym _ _ E)).
  unfold occurrences in H0. lia.
Qed.

Lemma occurrences_has_time (t : Q) (l : list Q) :
  has_time t l -> (1 <= occurrences t l)%nat.
Proof.
  intros [u [Hin E]]. unfold occurrences.
  induction l as [|y l IH]; simpl in *; [contradiction|].
  destruct Hin as [Hin|Hin].
  - subst y. replace (Qeq_bool t u) with true; [simpl; lia|].
    symmetry. apply Qeq_bool_iff. symmetry. exact E.
  - destruct (Qeq_bool t y); simpl; [lia|apply IH, Hin].
Qed.

Lemma list_sum_at_most_one {A : Type} (f : A -> nat) (l : list A) :
  Forall (fun x => (f x <= 1)%nat) l -> (list_sum (map f l) <= List.length l)%nat.
Proof. induction 1; simpl; lia. Qed.

Lemma list_sum_all_one {A : Type} (f : A -> nat) (l : list A) :
  Forall (fun x => f x = 1%nat) l -> list_sum (map f l) = List.length l.
Proof. induction 1; simpl; lia. Qed.

Lemma join_features_nrows (a b : DataFrame) (how : join_mode) :
  nrows (join_features a b how) =
  List.length (join_indexers how (timestamp a) (timestamp b)).
Proof.
  unfold join_features. rewrite sort_values_nrows. unfold nrows, merge. simpl.
  apply length_map.
Qed.

(** C7 (join_features, lines 240-263).  For two feature series whose
    timestamps are each strictly increasing, the inner join has at most
    [min(len(a), len(b))] rows, exactly that many when the two series have
    the same timestamps, and its rows are in ascending order of timestamp. *)
Theorem inner_join_rows (csi_feature_df bitrate_filtered_df : DataFrame) :
  increasing (timestamp csi_feature_df) ->
  increasing (timestamp bitrate_filtered_df) ->
  let joined := join_features csi_feature_df bitrate_filtered_df inner in
  (nrows joined <= Nat.min (nrows csi_feature_df) (nrows bitrate_filtered_df))%nat /\
  ((forall t, has_time t (timestamp csi_feature_df) <->
              has_time t (timestamp bitrate_filtered_df)) ->
   nrows joined = Nat.min (nrows csi_feature_df) (nrows bitrate_filtered_df)) /\
  ascending (timestamp joined).
Proof.
  intros Ha Hb joined. subst joined.
  rewrite join_features_nrows, inner_join_length. unfold nrows.
  set (ta := timestamp csi_feature_df) in *.
  set (tb := timestamp bitrate_filtered_df) in *.
  split; [|split].
  - apply Nat.min_glb.
    + apply list_sum_at_most_one, Forall_forall. intros t _.
      apply occurrences_increasing, Hb.
    + rewrite matching_pairs_swap.
      apply list_sum_at_most_one, Forall_forall. intros t _.
      apply occurrences_increasing, Ha.
  - intros Hsame.
    assert (H1 : list_sum (map (fun t => occurrences t tb) ta) = List.length ta).
    { apply list_sum_all_one, Forall_forall. intros t Ht.
      assert (Hle := occurrences_increasing t tb Hb).
      assert (Hge : (1 <= occurrences t tb)%nat).
      { apply occurrences_has_time, Hsame. exists t. split; [exact Ht|reflexivity]. }
      lia. }
    assert (H2 : list_sum (map (fun u => occurrences u ta) tb) = List.length tb).
    { apply list_sum_all_one, Forall_forall. intros t Ht.
      assert (Hle := occurrences_increasing t ta Ha).
      assert (Hge : (1 <= occurrences t ta)%nat).
      { apply occurrences_has_time, Hsame. exists t. split; [exact Ht|reflexivity]. }
      lia. }
    rewrite matching_pairs_swap in H1. rewrite matching_pairs_swap. lia.
  - apply sort_values_ascending.
Qed.

Lemma inner_join_rows_witness :
  (nrows (join_features csi_features_3 bitrate_medians_3 inner) <=
     Nat.min (nrows csi_features_3) (nrows bitrate_medians_3))%nat /\
  ((forall t, has_time t (timestamp csi_features_3) <->
              has_time t (timestamp bitrate_medians_3)) ->
   nrows (join_features csi_features_3 bitrate_medians_3 inner) =
     Nat.min (nrows csi_features_3) (nrows bitrate_medians_3)) /\
  ascending (timestamp (join_features csi_features_3 bitrate_medians_3 inner)).
Proof.
  apply (inner_join_rows csi_features_3 bitrate_medians_3);
    repeat constructor.
Defined.

(** ** Sliding windows *)

Lemma window_count_range (n w s : nat) :
  (1 <= s)%nat ->
  Z.to_nat (range_len 0 (Z.of_nat n - Z.of_nat w + 1) (Z.of_nat s)) =
  window_count n w s.
Proof.
  intros Hs. unfold range_len, window_count.
  destruct (Z.ltb_spec 0 (Z.of_nat s)); [|lia].
  destruct (Z.ltb_spec 0 (Z.of_nat n - Z.of_nat w + 1)).
  - replace (Z.of_nat n - Z.of_nat w + 1 - 1 - 0)%Z
      with (Z.of_nat n - Z.of_nat w)%Z by lia.
    assert (0 <= (Z.of_nat n - Z.of_nat w) / Z.of_nat s)%Z
      by (apply Z.div_pos; lia).
    lia.
  - assert ((Z.of_nat n - Z.of_nat w) / Z.of_nat s < 0)%Z
      by (apply Z.div_lt_upper_bound; lia).
    lia.
Qed.

Lemma window_count_spec (n w s i : nat) :
  (1 <= s)%nat -> (i < window_count n w s)%nat <-> (i * s + w <= n)%nat.
Proof.
  intros Hs. unfold window_count.
  set (q := ((Z.of_nat n - Z.of_nat w) / Z.of_nat s)%Z).
  assert (Hpos : (0 < Z.of_nat s)%Z) by lia.
  split; intros H.
  - assert (Hi : (Z.of_nat i <= q)%Z) by lia.
    assert (Hq := Z.mul_div_le (Z.of_nat n - Z.of_nat w) (Z.of_nat s) Hpos).
    fold q in Hq. nia.
  - assert (Hi : (Z.of_nat i <= q)%Z).
    { apply Z.div_le_lower_bound; [exact Hpos|]. nia. }
    lia.
Qed.

Lemma window_starts_ok (n w s : nat) :
  (1 <= s)%nat ->
  window_starts n w s =
  Ok (map (fun i => (0 + Z.of_nat i * Z.of_nat s)%Z) (seq 0 (window_count n w s))).
Proof.
  intros Hs. unfold window_starts, range.
  destruct (Z.eqb_spec (Z.of_nat s) 0); [lia|].
  rewrite (window_count_range n w s Hs). reflexivity.
Qed.


Lemma Forall2_nth_error {A B : Type} (P : A -> B -> Prop) (l : list A)
  (ys : list B) (i : nat) (x : A) :
  Forall2 P l ys -> nth_error l i = Some x ->
  exists y, nth_error ys i = Some y /\ P x y.
Proof.
  intros H. revert i. induction H as [|a b l ys Hab Hl IH]; intros i Hi.
  - destruct i; discriminate.
  - destruct i as [|i]; simpl in *.
    + inversion Hi; subst. exists b. split; [reflexivity|exact Hab].
    + apply IH, Hi.
Qed.

Lemma Forall2_length_eq {A B : Type} (P : A -> B -> Prop) (l : list A)
  (ys : list B) : Forall2 P l ys -> List.length ys = List.length l.
Proof. induction 1; simpl; congruence. Qed.


Lemma centre_in_range (n w s i : nat) :
  (1 <= w)%nat -> (i * s + w <= n)%nat -> (i * s + w / 2 < n)%nat.
Proof.
  intros Hw H. assert (w / 2 < w)%nat by (apply Nat.div_lt; lia). lia.
Qed.


Lemma sort_values_ascending_timestamps (df : DataFrame) :
  ascending (timestamp df) -> timestamp (Pd.sort_values df) = timestamp df.
Proof.
  intros Hs. simpl. rewrite (argsort_ascending _ Hs). apply take_seq.
Qed.

Lemma csi_matrix_length (df : DataFrame) :
  List.length (csi_matrix df) = nrows df.
Proof. unfold csi_matrix, values. rewrite length_map, length_seq. reflexivity. Qed.



(** The scenario of the median filter: window 3, stride 1 on the values
    10, 20, 30, 40, 50 gives the medians 20, 30, 40 at the rows 1, 2, 3. *)
Example median_filter_scenario :
  median_filter_bitrate bitrate_5 3 1 =
  Ok {| timestamp := [1; 2; 3];
        columns := [("bitrate_median"%string, [Some 20; Some 30; Some 40])] |}.
Proof. vm_compute. reflexivity. Qed.

(** Forward fill first, backward fill second, on rows given out of order. *)
Example fill_missing_csi_scenario :
  fill_missing_csi csi_with_gaps =
  {| timestamp := [0; 1; 2; 3];
     columns := [("subcarrier_0"%string, [Some 1; Some 1; Some 1; Some 1]);
                 ("subcarrier_1"%string, [None; None; None; None])] |}.
Proof. vm_compute. reflexivity. Qed.

(** * Further properties of the pipeline *)

(** ** What a returned aligned table is made of *)

Lemma align_csi_magnitude_inv (csi_data : list (list Q)) (ts : list Q) (ti : Q)
  (n : option Z) (m : string) (out : DataFrame) :
  align_csi_magnitude csi_data ts ti n m = Ok out ->
  exists data k agg rlo rhi,
    select_subcarriers csi_data n = Ok (data, k) /\
    List.length ts = List.length data /\
    aggregation m = Ok agg /\
    Np.min (map (round_to ti) ts) = Ok rlo /\
    Np.max (map (round_to ti) ts) = Ok rhi /\
    Np.arange rlo (rhi + ti) ti = Ok (timestamp out) /\
    columns out =
      map (fun j => (subcarrier_name j,
                     Pd.reindex_column (Pd.group_keys (map (round_to ti) ts))
                       (timestamp out)
                       (Pd.groupby_agg agg (map (round_to ti) ts)
                          (data_column j data))))
          (seq 0 k).
Proof.
  unfold align_csi_magnitude. intros H.
  destruct (select_subcarriers csi_data n) as [[data k]|e] eqn:Hsel;
    cbn [bind fst snd] in H; [|discriminate].
  destruct (Nat.eqb_spec (List.length (map (round_to ti) ts)) (List.length data))
    as [Hlen|Hlen]; cbn [negb] in H; [|discriminate].
  rewrite length_map in Hlen.
  destruct (aggregation m) as [agg|e] eqn:Hagg; cbn [bind] in H; [|discriminate].
  destruct (Np.min (map (round_to ti) ts)) as [rlo|e] eqn:Hlo;
    cbn [bind] in H; [|discriminate].
  destruct (Np.max (map (round_to ti) ts)) as [rhi|e] eqn:Hhi;
    cbn [bind] in H; [|discriminate].
  destruct (Np.arange rlo (rhi + ti) ti) as [grid|e] eqn:Hg;
    cbn [bind] in H; [|discriminate].
  inversion H; subst out; clear H. cbn [timestamp columns].
  exists data, k, agg, rlo, rhi.
  repeat (split; [assumption || reflexivity|]).
  rewrite !map_map. reflexivity.
Qed.

Lemma calculate_bitrate_and_align_inv (bitrate_df : BitrateFrame) (ti : Q)
  (h : Z) (out : DataFrame) :
  snd (calculate_bitrate_and_align bitrate_df ti h) = Ok out ->
  exists rlo rhi,
    Np.min (map (round_to ti) (frame_time bitrate_df)) = Ok rlo /\
    Np.max (map (round_to ti) (frame_time bitrate_df)) = Ok rhi /\
    Np.arange rlo (rhi + ti) ti = Ok (timestamp out) /\
    columns out =
      [("bitrate_bytes"%string,
        Pd.reindex_column (Pd.group_keys (map (round_to ti) (frame_time bitrate_df)))
          (timestamp out)
          (Pd.groupby_agg Pd.sum (map (round_to ti) (frame_time bitrate_df))
             (map (fun l => (l - h)%Z) (ws_col_Length bitrate_df))))].
Proof.
  unfold calculate_bitrate_and_align. cbn [snd]. intros H.
  destruct (map (round_to ti) (frame_time bitrate_df)) as [|t r] eqn:Er;
    [discriminate|].
  cbn [Pd.min Pd.max] in H.
  destruct (Np.arange _ _ ti) as [grid|e] eqn:Hg; cbn [bind] in H; [|discriminate].
  inversion H; subst out; clear H. cbn [timestamp columns].
  eexists. eexists. split; [reflexivity|]. split; [reflexivity|].
  split; [exact Hg|reflexivity].
Qed.

(** ** The timeline as a grid *)


Lemma arange_nth (a b ti : Q) (grid : list Q) (i : nat) (l : Q) :
  Np.arange a b ti = Ok grid -> nth_error grid i = Some l ->
  l = a + inject_Z (Z.of_nat i) * ti.
Proof.
  unfold Np.arange. destruct (Qeq_bool ti 0); [discriminate|].
  intros H Hi. inversion H; subst grid; clear H.
  rewrite nth_error_map in Hi.
  destruct (nth_error (seq 0 (Np.arange_len a b ti)) i) as [j|] eqn:Ej;
    [|discriminate].
  rewrite nth_error_seq in Ej.
  destruct (i <? Np.arange_len a b ti)%nat; [|discriminate].
  inversion Ej; subst j. inversion Hi. reflexivity.
Qed.

Lemma sorted_map_seq (f : nat -> Q) (s n : nat) :
  (forall i, f i < f (S i)) -> Sorted Qlt (map f (seq s n)).
Proof.
  intros Hf. revert s. induction n as [|n IH]; intros s; simpl; constructor.
  - apply IH.
  - destruct n; simpl; constructor. apply Hf.
Qed.

Lemma arange_increasing (a b ti : Q) (grid : list Q) :
  0 < ti -> Np.arange a b ti = Ok grid -> increasing grid.
Proof.
  intros Hti. unfold Np.arange. destruct (Qeq_bool ti 0); [discriminate|].
  intros H. inversion H; subst grid; clear H.
  apply sorted_map_seq. intros i.
  rewrite Nat2Z.inj_succ. unfold Z.succ. rewrite inject_Z_plus.
  change (inject_Z 1) with 1. lra.
Qed.

Lemma rounded_is_multiple (ti : Q) (ts : list Q) (l : Q) :
  In l (map (round_to ti) ts) -> exists k, l = inject_Z k * ti.
Proof.
  intros H. apply in_map_iff in H. destruct H as [t [E _]].
  exists (Np.rint (t / ti)). symmetry. exact E.
Qed.

(** The timeline between the rounded extremes: a uniform grid that holds
    the bucket of every raw timestamp and stays between the extremes. *)
Lemma timeline_of_rounded (ti : Q) (ts : list Q) (rlo rhi : Q) (grid : list Q) :
  0 < ti ->
  Np.min (map (round_to ti) ts) = Ok rlo ->
  Np.max (map (round_to ti) ts) = Ok rhi ->
  Np.arange rlo (rhi + ti) ti = Ok grid ->
  uniform_grid ti grid /\
  (forall t, In t ts -> has_time (round_to ti t) grid) /\
  (forall l, In l grid -> rlo <= l /\ l <= rhi).
Proof.
  intros Hti Hrlo Hrhi Hg.
  assert (Hne : ts <> []) by (intros E; subst ts; discriminate).
  destruct (full_timeline ti ts Hti Hne)
    as [lo [hi [rlo' [rhi' [grid' [Hlo [Hhi [Hrlo' [Hrhi' [Hg' [_ [Hlen Hnth]]]]]]]]]]]].
  rewrite Hrlo in Hrlo'. inversion Hrlo'; subst rlo'.
  rewrite Hrhi in Hrhi'. inversion Hrhi'; subst rhi'.
  rewrite Hg in Hg'. inversion Hg'; subst grid'. clear Hrlo' Hrhi' Hg'.
  set (a := Np.rint (lo / ti)) in *. set (b := Np.rint (hi / ti)) in *.
  assert (Ea : rlo == inject_Z a * ti) by (apply (min_rounded ti ts); assumption).
  assert (Eb : rhi == inject_Z b * ti) by (apply (max_rounded ti ts); assumption).
  destruct (min_spec _ _ Hlo) as [_ Hlow]. destruct (max_spec _ _ Hhi) as [_ Hupp].
  rewrite Forall_forall in Hlow, Hupp.
  assert (Hdiv : forall x y, x <= y -> x / ti <= y / ti).
  { intros x y Hxy. unfold Qdiv. apply Qmult_le_compat_r; [exact Hxy|].
    apply Qlt_le_weak, Qinv_lt_0_compat, Hti. }
  split; [|split].
  - split; [eapply arange_increasing; eassumption|]. split.
    + intros i l l' Hl Hl'.
      rewrite (arange_nth _ _ _ _ _ _ Hg Hl), (arange_nth _ _ _ _ _ _ Hg Hl').
      rewrite Nat2Z.inj_succ. unfold Z.succ. rewrite inject_Z_plus.
      change (inject_Z 1) with 1. ring.
    + intros l Hl. apply In_nth_error in Hl. destruct Hl as [i Hi].
      assert (Hlt : (i < List.length grid)%nat)
        by (apply nth_error_Some; congruence).
      destruct (Hnth i Hlt) as [l' [Hi' El]].
      rewrite Hi in Hi'. inversion Hi'; subst l'.
      exists (a + Z.of_nat i)%Z. exact El.
  - intros t Ht.
    assert (Hk1 : (a <= Np.rint (t / ti))%Z) by (apply rint_mono, Hdiv, Hlow, Ht).
    assert (Hk2 : (Np.rint (t / ti) <= b)%Z) by (apply rint_mono, Hdiv, Hupp, Ht).
    assert (Hlt : (Z.to_nat (Np.rint (t / ti) - a) < List.length grid)%nat) by lia.
    destruct (Hnth _ Hlt) as [l [Hi El]].
    exists l. split; [eapply nth_error_In; exact Hi|].
    rewrite El. unfold round_to.
    replace (a + Z.of_nat (Z.to_nat (Np.rint (t / ti) - a)))%Z
      with (Np.rint (t / ti)) by lia.
    reflexivity.
  - intros l Hl. apply In_nth_error in Hl. destruct Hl as [i Hi].
    assert (Hlt : (i < List.length grid)%nat)
      by (apply nth_error_Some; congruence).
    destruct (Hnth i Hlt) as [l' [Hi' El]].
    rewrite Hi in Hi'. inversion Hi'; subst l'.
    rewrite El, Ea, Eb.
    split; (apply Qmult_le_compat_r; [rewrite <- Zle_Qle; lia|lra]).
Qed.





(** ** Aggregated CSI values *)

Lemma group_bucket_values {A : Type} (ti : Q) (ts : list Q) (col : list A) (l : Q) :
  Pd.group (map (round_to ti) ts) col l = bucket_values ti ts col l.
Proof.
  unfold Pd.group, bucket_values. revert col.
  induction ts as [|t ts IH]; intros col; [reflexivity|].
  destruct col as [|a col]; [reflexivity|]. simpl.
  destruct (Qeq_bool (round_to ti t) l); simpl; rewrite IH; reflexivity.
Qed.

Lemma bucket_values_nonempty {A : Type} (ti : Q) (ts : list Q) (col : list A) (l : Q) :
  List.length ts = List.length col ->
  has_time l (map (round_to ti) ts) ->
  bucket_values ti ts col l <> [].
Proof.
  unfold bucket_values. revert col.
  induction ts as [|t ts IH]; intros col Hlen [u [Hin Hu]]; [contradiction|].
  destruct col as [|a col]; [discriminate|]. simpl in *.
  destruct (Qeq_bool (round_to ti t) l) eqn:E; [discriminate|].
  destruct Hin as [Hin|Hin].
  - subst u. apply Qeq_bool_false in E. contradiction.
  - apply IH; [lia|]. exists u. auto.
Qed.

Lemma select_subcarriers_kept (csi_data : list (list Q)) (n : option Z)
  (data : list (list Q)) (k : nat) :
  select_subcarriers csi_data n = Ok (data, k) ->
  k = kept_subcarriers csi_data n /\ List.length data = List.length csi_data.
Proof.
  unfold select_subcarriers, kept_subcarriers. destruct n as [n|].
  - destruct (n <? Z.of_nat (shape1 csi_data))%Z.
    + destruct (subcarrier_indices (shape1 csi_data) n); cbn [bind]; intros H;
        inversion H; subst. split; [reflexivity|apply length_map].
    + intros H. inversion H; subst. split; reflexivity.
  - intros H. inversion H; subst. split; reflexivity.
Qed.

(** X3 (align_csi_magnitude, lines 54-58 and 66).  In a returned aligned
    CSI table, the cell of subcarrier column [j] in a grid row that some
    packet rounds to holds, for "mean", the arithmetic mean of that
    subcarrier over the packets rounding to the row and, for "first", the
    value of the first such packet in row order; the bucket is never
    empty. *)
Theorem aligned_csi_bucket_values (csi_data : list (list Q))
  (csi_timestamps : list Q) (time_interval : Q) (n_subcarriers : option Z)
  (aggregation_method : string) (out : DataFrame) (data : list (list Q))
  (k j i : nat) (l : Q) :
  align_csi_magnitude csi_data csi_timestamps time_interval n_subcarriers
    aggregation_method = Ok out ->
  select_subcarriers csi_data n_subcarriers = Ok (data, k) ->
  (j < k)%nat ->
  nth_error (timestamp out) i = Some l ->
  has_time l (map (round_to time_interval) csi_timestamps) ->
  let b := bucket_values time_interval csi_timestamps (data_column j data) l in
  exists v rest c,
    b = v :: rest /\
    nth_error (columns out) j = Some (subcarrier_name j, c) /\
    (aggregation_method = "mean"%string ->
     nth_error c i =
     Some (Some (Pd.Qsum b / inject_Z (Z.of_nat (List.length b))))) /\
    (aggregation_method = "first"%string -> nth_error c i = Some (Some v)).
Proof.
  intros H Hsel Hj Hi Hl b.
  apply align_csi_magnitude_inv in H.
  destruct H as [data' [k' [agg [rlo [rhi [Hsel' [Hlen [Hagg [_ [_ [_ Hcols]]]]]]]]]]].
  rewrite Hsel in Hsel'. inversion Hsel'; subst data' k'. clear Hsel'.
  assert (Hb : b <> []).
  { apply bucket_values_nonempty; [|exact Hl].
    unfold data_column. rewrite length_map. exact Hlen. }
  destruct b as [|v rest] eqn:Eb; [congruence|].
  eexists v, rest, _. split; [reflexivity|]. split.
  { rewrite Hcols, nth_error_map, nth_error_seq.
    destruct (Nat.ltb_spec j k); [|lia]. reflexivity. }
  rewrite (reindex_groupby_found _ _ _ _ _ l Hi Hl), group_bucket_values.
  change (0 + j)%nat with j. fold b. rewrite Eb. split; intros Em; subst aggregation_method;
    inversion Hagg; subst agg; reflexivity.
Qed.

Lemma aligned_csi_bucket_values_witness :
  let b := bucket_values (1 # 10) [4 # 100; 6 # 100; 8 # 100]
             (data_column 0 [[1]; [2]; [6]]) (nth 1 (timestamp csi_aligned_3) 0) in
  exists v rest c,
    b = v :: rest /\
    nth_error (columns csi_aligned_3) 0 = Some (subcarrier_name 0, c) /\
    ("mean"%string = "mean"%string ->
     nth_error c 1 =
     Some (Some (Pd.Qsum b / inject_Z (Z.of_nat (List.length b))))) /\
    ("mean"%string = "first"%string -> nth_error c 1 = Some (Some v)).
Proof.
  apply (aligned_csi_bucket_values [[1]; [2]; [6]] [4 # 100; 6 # 100; 8 # 100]
           (1 # 10) None "mean" csi_aligned_3 [[1]; [2]; [6]] 1 0 1
           (nth 1 (timestamp csi_aligned_3) 0)).
  - vm_compute. reflexivity.
  - reflexivity.
  - lia.
  - vm_compute. reflexivity.
  - exists (round_to (1 # 10) (6 # 100)). split; [simpl; auto|reflexivity].
Defined.

(** X4 (align_csi_magnitude, lines 39-51 and 66-68).  A returned aligned
    CSI table has the columns subcarrier_0, subcarrier_1, ... in this order:
    [n_subcarriers] of them when that count is given and smaller than the
    width of the array, as many as the array is wide otherwise; and every
    column has one cell per grid row. *)
Theorem aligned_csi_columns (csi_data : list (list Q)) (csi_timestamps : list Q)
  (time_interval : Q) (n_subcarriers : option Z) (aggregation_method : string)
  (out : DataFrame) :
  align_csi_magnitude csi_data csi_timestamps time_interval n_subcarriers
    aggregation_method = Ok out ->
  column_names out =
    map subcarrier_name (seq 0 (kept_subcarriers csi_data n_subcarriers)) /\
  Forall (fun nc => List.length (snd nc) = nrows out) (columns out).
Proof.
  intros H. apply align_csi_magnitude_inv in H.
  destruct H as [data [k [agg [rlo [rhi [Hsel [_ [_ [_ [_ [_ Hcols]]]]]]]]]]].
  apply select_subcarriers_kept in Hsel. destruct Hsel as [Hk _]. subst k.
  unfold column_names. rewrite Hcols. split.
  - rewrite map_map. reflexivity.
  - apply Forall_map, Forall_forall. intros j _. cbn [snd].
    apply reindex_column_length.
Qed.

Lemma aligned_csi_columns_witness :
  column_names csi_aligned_3 =
    map subcarrier_name (seq 0 (kept_subcarriers [[1]; [2]; [6]] None)) /\
  Forall (fun nc => List.length (snd nc) = nrows csi_aligned_3)
         (columns csi_aligned_3).
Proof.
  apply (aligned_csi_columns [[1]; [2]; [6]] [4 # 100; 6 # 100; 8 # 100]
           (1 # 10) None "mean").
  vm_compute. reflexivity.
Defined.

(** X5 (align_csi_magnitude, lines 48-63, and calculate_bitrate_and_align,
    lines 99-107).  A capture with no timestamp never yields a table: on an
    empty timestamp array [align_csi_magnitude] raises whatever its other
    arguments are, and [calculate_bitrate_and_align] raises on a table with
    no row. *)
Theorem empty_capture_raises (csi_data : list (list Q)) (time_interval : Q)
  (n_subcarriers : option Z) (aggregation_method : string)
  (lengths : list Z) (stored : option (list Q)) (header_adjust : Z) :
  raises (align_csi_magnitude csi_data [] time_interval n_subcarriers
            aggregation_method) /\
  raises (snd (calculate_bitrate_and_align
                 {| frame_time := []; ws_col_Length := lengths;
                    br_timestamp := stored |} time_interval header_adjust)).
Proof.
  split.
  - unfold align_csi_magnitude.
    destruct (select_subcarriers csi_data n_subcarriers) as [sel|e]; cbn [bind];
      [|eexists; reflexivity].
    destruct (negb _); [eexists; reflexivity|].
    destruct (aggregation aggregation_method); cbn [bind map Np.min];
      eexists; reflexivity.
  - eexists. reflexivity.
Qed.

(** ** Payload bytes are conserved *)









(** ** Filling an aligned table *)

(** X7 (fill_missing_bitrate, lines 234-238).  [fill_missing_bitrate] puts
    the rows in timestamp order and, in every column whose name contains
    "bitrate", keeps each known value and writes 0 in each missing cell, so
    that no cell of such a column is missing afterwards; the other columns
    are only reordered. *)
Theorem fill_missing_bitrate_zeroes (df : DataFrame) (k : nat) (name : string)
  (col : list cell) :
  nth_error (columns df) k = Some (name, col) ->
  let sorted := Pd.take None (Pd.argsort (timestamp df)) col in
  exists filled,
    nth_error (columns (fill_missing_bitrate df)) k = Some (name, filled) /\
    List.length filled = nrows df /\
    (is_bitrate name = true ->
     Forall (fun x => x <> None) filled /\
     forall i, (i < nrows df)%nat ->
       nth_error filled i =
       Some (Some (match nth i sorted None with Some v => v | None => 0 end))) /\
    (is_bitrate name = false -> filled = sorted).
Proof.
  intros Hk sorted.
  assert (Hlen : List.length sorted = nrows df).
  { unfold sorted. rewrite take_length. apply argsort_length. }
  exists (if is_bitrate name then Pd.fillna 0 sorted else sorted).
  split; [|split; [|split]].
  - simpl. rewrite !nth_error_map, Hk. simpl.
    destruct (is_bitrate name); reflexivity.
  - destruct (is_bitrate name); [unfold Pd.fillna; rewrite length_map|]; exact Hlen.
  - intros E. rewrite E. split.
    + unfold Pd.fillna. apply Forall_map, Forall_forall.
      intros [v|] _; discriminate.
    + intros i Hi. unfold Pd.fillna. rewrite nth_error_map.
      rewrite (nth_error_nth' sorted None) by (rewrite Hlen; exact Hi).
      simpl. destruct (nth i sorted None); reflexivity.
  - intros E. rewrite E. reflexivity.
Qed.

Lemma fill_missing_bitrate_zeroes_witness :
  let sorted := Pd.take None (Pd.argsort (timestamp bitrate_with_gaps))
                  [None; Some 10; None] in
  exists filled,
    nth_error (columns (fill_missing_bitrate bitrate_with_gaps)) 0 =
      Some ("bitrate_bytes"%string, filled) /\
    List.length filled = nrows bitrate_with_gaps /\
    (is_bitrate "bitrate_bytes" = true ->
     Forall (fun x => x <> None) filled /\
     forall i, (i < nrows bitrate_with_gaps)%nat ->
       nth_error filled i =
       Some (Some (match nth i sorted None with Some v => v | None => 0 end))) /\
    (is_bitrate "bitrate_bytes" = false -> filled = sorted).
Proof.
  apply (fill_missing_bitrate_zeroes bitrate_with_gaps 0 "bitrate_bytes"
           [None; Some 10; None]).
  reflexivity.
Defined.

Lemma increasing_ascending (ts : list Q) : increasing ts -> ascending ts.
Proof.
  unfold increasing, ascending.
  induction 1 as [|x l Hl IH Hx]; constructor; [exact IH|].
  destruct Hx; constructor. apply Qlt_le_weak. assumption.
Qed.

Lemma ffill_from_exists (last : cell) (c : list cell) :
  Exists (fun x => x <> None) c ->
  Exists (fun x => x <> None) (Pd.ffill_from last c).
Proof.
  intros H. revert last. induction H as [x c Hx|x c Hc IH]; intros last.
  - destruct x as [v|]; [|congruence]. simpl. left. discriminate.
  - destruct x as [v|]; simpl; right; apply IH.
Qed.

Lemma bfill_exists (c : list cell) :
  Exists (fun x => x <> None) c -> Exists (fun x => x <> None) (Pd.bfill c).
Proof.
  induction 1 as [x c Hx|x c Hc IH].
  - destruct x as [v|]; [|congruence]. simpl. left. discriminate.
  - destruct x as [v|]; simpl; right; apply IH.
Qed.

(** One known value is enough for the two passes to fill a whole column. *)
Lemma fill_known_of_exists (c : list cell) :
  Exists (fun x => x <> None) c ->
  Forall (fun x => x <> None) (Pd.bfill (Pd.ffill c)).
Proof.
  intros H. destruct (fill_known_or_missing c) as [Hk|Hm]; [exact Hk|].
  exfalso. apply (ffill_from_exists None), bfill_exists in H.
  fold (Pd.ffill c) in H. apply Exists_exists in H.
  destruct H as [x [Hin Hx]]. unfold all_missing in Hm.
  rewrite Forall_forall in Hm. apply Hx, Hm, Hin.
Qed.

Lemma is_subcarrier_name (j : nat) : is_subcarrier (subcarrier_name j) = true.
Proof.
  unfold is_subcarrier, subcarrier_name.
  generalize (NilZero.string_of_uint (Nat.to_uint j)).
  intros s. destruct s; reflexivity.
Qed.

Lemma aggregation_known (m : string) (agg : list Q -> cell) (b : list Q) :
  aggregation m = Ok agg -> b <> [] -> agg b <> None.
Proof.
  unfold aggregation. intros H Hb.
  destruct (String.eqb m "mean"); [inversion H; subst agg|].
  - destruct b; [congruence|discriminate].
  - destruct (String.eqb m "first"); [inversion H; subst agg|discriminate].
    destruct b; [congruence|discriminate].
Qed.

(** X8 (process_file_set, lines 291-294, with align_csi_magnitude,
    fill_missing_csi, calculate_bitrate_and_align and fill_missing_bitrate).
    With a positive interval, filling a returned aligned table leaves its
    timeline as it is and no cell missing: after [fill_missing_csi] every
    subcarrier column of the aligned CSI table, and after
    [fill_missing_bitrate] the bitrate_bytes column of the aligned bitrate
    table, has a known value in every grid row. *)
Theorem filled_aligned_table_is_complete (csi_data : list (list Q))
  (csi_timestamps : list Q) (time_interval : Q) (n_subcarriers : option Z)
  (aggregation_method : string) (bitrate_df : BitrateFrame) (header_adjust : Z)
  (out : DataFrame) :
  0 < time_interval ->
  (align_csi_magnitude csi_data csi_timestamps time_interval n_subcarriers
     aggregation_method = Ok out ->
   complete (fill_missing_csi out) /\
   timestamp (fill_missing_csi out) = timestamp out) /\
  (snd (calculate_bitrate_and_align bitrate_df time_interval header_adjust) = Ok out ->
   complete (fill_missing_bitrate out) /\
   timestamp (fill_missing_bitrate out) = timestamp out).
Proof.
  intros Hti. split; intros H.
  - apply align_csi_magnitude_inv in H.
    destruct H as [data [k [agg [rlo [rhi [_ [Hlen [Hagg [Hlo [Hhi [Hg Hcols]]]]]]]]]]].
    destruct (timeline_of_rounded _ _ _ _ _ Hti Hlo Hhi Hg) as [[Hinc _] [Hcov _]].
    assert (Hsort : Pd.sort_values out = out).
    { apply sort_values_ascending_id; [apply increasing_ascending, Hinc|].
      rewrite Hcols. apply Forall_map, Forall_forall. intros j _. cbn [snd].
      apply reindex_column_length. }
    unfold fill_missing_csi. rewrite Hsort. cbn [timestamp].
    split; [|reflexivity].
    unfold complete, nrows. cbn [columns timestamp]. rewrite Hcols.
    apply Forall_map, Forall_map, Forall_forall. intros j _. cbn [fst snd].
    rewrite is_subcarrier_name. cbn [snd]. split.
    { unfold Pd.ffill. rewrite bfill_length, ffill_from_length.
      apply reindex_column_length. }
    apply fill_known_of_exists.
    destruct csi_timestamps as [|t ts]; [discriminate|].
    destruct (Hcov t (or_introl eq_refl)) as [l [Hin El]].
    apply In_nth_error in Hin. destruct Hin as [i Hi].
    assert (Hl : has_time l (map (round_to time_interval) (t :: ts))).
    { exists (round_to time_interval t). split; [left; reflexivity|].
      symmetry. exact El. }
    apply Exists_exists. eexists. split.
    + eapply nth_error_In. apply (reindex_groupby_found _ _ _ _ _ l Hi Hl).
    + rewrite group_bucket_values. apply (aggregation_known _ _ _ Hagg).
      apply bucket_values_nonempty; [|exact Hl].
      unfold data_column. rewrite length_map. exact Hlen.
  - apply calculate_bitrate_and_align_inv in H.
    destruct H as [rlo [rhi [Hlo [Hhi [Hg Hcols]]]]].
    destruct (timeline_of_rounded _ _ _ _ _ Hti Hlo Hhi Hg) as [[Hinc _] _].
    assert (Hsort : Pd.sort_values out = out).
    { apply sort_values_ascending_id; [apply increasing_ascending, Hinc|].
      rewrite Hcols. constructor; [|constructor]. cbn [snd].
      apply reindex_column_length. }
    unfold fill_missing_bitrate. rewrite Hsort. cbn [timestamp].
    split; [|reflexivity].
    unfold complete, nrows. cbn [columns timestamp]. rewrite Hcols.
    constructor; [|constructor]. cbn [map fst snd]. 
    change (is_bitrate "bitrate_bytes") with true. cbn [snd]. split.
    + unfold Pd.fillna. rewrite length_map. apply reindex_column_length.
    + unfold Pd.fillna. apply Forall_map, Forall_forall. intros [v|] _; discriminate.
Qed.

Lemma filled_aligned_table_is_complete_witness :
  (complete (fill_missing_csi csi_aligned_3) /\
   timestamp (fill_missing_csi csi_aligned_3) = timestamp csi_aligned_3) /\
  (complete (fill_missing_bitrate bitrate_aligned_3) /\
   timestamp (fill_missing_bitrate bitrate_aligned_3) = timestamp bitrate_aligned_3).
Proof.
  split.
  - apply (proj1 (filled_aligned_table_is_complete
             [[1]; [2]; [6]] [4 # 100; 6 # 100; 8 # 100] (1 # 10) None "mean"
             bitrate_raw_3 34 csi_aligned_3 eq_refl)).
    vm_compute. reflexivity.
  - apply (proj2 (filled_aligned_table_is_complete
             [[1]; [2]; [6]] [4 # 100; 6 # 100; 8 # 100] (1 # 10) None "mean"
             bitrate_raw_3 34 bitrate_aligned_3 eq_refl)).
    vm_compute. reflexivity.
Defined.

(** ** What a returned feature table is made of *)

Lemma mapM_inv {A B : Type} (f : A -> result B) (l : list A) (ys : list B) :
  mapM f l = Ok ys -> Forall2 (fun x y => f x = Ok y) l ys.
Proof.
  revert ys. induction l as [|x l IH]; intros ys H; simpl in H.
  - inversion H. constructor.
  - destruct (f x) as [y|e] eqn:Ey; cbn [bind] in H; [|discriminate].
    destruct (mapM f l) as [ys'|e] eqn:El; cbn [bind] in H; [|discriminate].
    inversion H; subst ys. constructor; [exact Ey|apply IH; reflexivity].
Qed.

Lemma mapM_raise_first {A B : Type} (f : A -> result B) (l1 l2 : list A)
  (x : A) (e : exn) :
  (forall z, In z l1 -> exists y, f z = Ok y) ->
  f x = Raise e ->
  mapM f (l1 ++ x :: l2) = Raise e.
Proof.
  intros Hok Hx. induction l1 as [|z l1 IH]; simpl.
  - rewrite Hx. reflexivity.
  - destruct (Hok z (or_introl eq_refl)) as [y Hy]. rewrite Hy. cbn [bind].
    rewrite IH; [reflexivity|]. intros z' Hz'. apply Hok. right. exact Hz'.
Qed.

Lemma Forall2_map_left {A B C : Type} (P : B -> C -> Prop) (g : A -> B)
  (l : list A) (ys : list C) :
  Forall2 P (map g l) ys -> Forall2 (fun x y => P (g x) y) l ys.
Proof.
  revert ys. induction l as [|x l IH]; intros ys H; simpl in H;
    inversion H; subst; constructor; auto.
Qed.

Lemma Forall2_weaken {A B : Type} (P Q : A -> B -> Prop) (l : list A)
  (ys : list B) :
  (forall x y, In x l -> P x y -> Q x y) -> Forall2 P l ys -> Forall2 Q l ys.
Proof.
  intros H F. induction F as [|x y l ys Hxy F IH]; constructor.
  - apply H; [left; reflexivity|exact Hxy].
  - apply IH. intros x' y' Hin. apply H. right. exact Hin.
Qed.

Lemma window_starts_zero_stride (n w : nat) :
  window_starts n w 0 = Raise (ValueError "range() arg 3 must not be zero").
Proof. reflexivity. Qed.

Lemma start_index (i s : nat) :
  Z.to_nat (0 + Z.of_nat i * Z.of_nat s) = (i * s)%nat.
Proof. lia. Qed.

Lemma csi_feature_extraction_inv
  (explained_variance : list (list cell) -> result cell) (df : DataFrame)
  (w s : nat) (out : DataFrame) :
  csi_feature_extraction explained_variance df w s = Ok out ->
  (1 <= s)%nat /\
  exists ys,
    Forall2 (fun i y =>
               explained_variance (slice (i * s) w (csi_matrix df)) = Ok (snd y) /\
               nth_error (timestamp df) (i * s + w / 2) = Some (fst y))
            (seq 0 (window_count (nrows df) w s)) ys /\
    timestamp out = map fst ys /\
    columns out = [("csi_feature"%string, map (option_map Np.round2) (map snd ys))].
Proof.
  unfold csi_feature_extraction. intros H.
  destruct s as [|s]; [rewrite window_starts_zero_stride in H; discriminate|].
  split; [lia|].
  rewrite csi_matrix_length, window_starts_ok in H by lia. cbn [bind] in H.
  match type of H with context [mapM ?f ?l] =>
    destruct (mapM f l) as [ys|e] eqn:Hys end; cbn [bind] in H; [|discriminate].
  inversion H; subst out; clear H. cbn [timestamp columns].
  exists ys. split; [|split; reflexivity].
  apply mapM_inv, Forall2_map_left in Hys.
  eapply Forall2_weaken; [|exact Hys].
  intros i y _ Hy. cbv beta in Hy. rewrite start_index in Hy.
  destruct (explained_variance _) as [f|e]; cbn [bind] in Hy; [|discriminate].
  unfold loc_timestamp in Hy.
  destruct (nth_error (timestamp df) _) as [t|]; cbn [bind] in Hy; [|discriminate].
  inversion Hy; subst y. split; reflexivity.
Qed.

Lemma median_filter_bitrate_inv (df : DataFrame) (w s : nat) (out : DataFrame) :
  median_filter_bitrate df w s = Ok out ->
  (1 <= s)%nat /\
  exists ys,
    Forall2 (fun i y =>
               nth_error (timestamp (Pd.sort_values df)) (i * s + w / 2) =
                 Some (fst y) /\
               exists c,
                 get_column "bitrate_bytes" (columns (Pd.sort_values df)) = Ok c /\
                 snd y = Pd.median (slice (i * s) w c))
            (seq 0 (window_count (nrows df) w s)) ys /\
    timestamp out = map fst ys /\
    columns out = [("bitrate_median"%string, map snd ys)].
Proof.
  unfold median_filter_bitrate. intros H.
  destruct s as [|s]; [rewrite window_starts_zero_stride in H; discriminate|].
  split; [lia|].
  rewrite sort_values_nrows, window_starts_ok in H by lia. cbn [bind] in H.
  match type of H with context [mapM ?f ?l] =>
    destruct (mapM f l) as [ys|e] eqn:Hys end; cbn [bind] in H; [|discriminate].
  inversion H; subst out; clear H. cbn [timestamp columns].
  exists ys. split; [|split; reflexivity].
  apply mapM_inv, Forall2_map_left in Hys.
  eapply Forall2_weaken; [|exact Hys].
  intros i y _ Hy. cbv beta in Hy. rewrite start_index in Hy.
  destruct (get_column "bitrate_bytes" (columns (Pd.sort_values df))) as [c|e];
    cbn [bind] in Hy; [|discriminate].
  unfold loc_timestamp in Hy.
  destruct (nth_error (timestamp (Pd.sort_values df)) _) as [t|];
    cbn [bind] in Hy; [|discriminate].
  inversion Hy; subst y. split; [reflexivity|]. exists c. split; reflexivity.
Qed.

Lemma increasing_nth_lt (l : list Q) (a b : nat) (x y : Q) :
  increasing l -> (a < b)%nat ->
  nth_error l a = Some x -> nth_error l b = Some y -> x < y.
Proof.
  intros Hs. apply Sorted_StronglySorted in Hs;
    [|intros p q r; apply Qlt_trans].
  revert a b. induction Hs as [|h l Hl IH Hh]; intros a b Hab Ha Hb.
  - destruct a; discriminate.
  - destruct b as [|b]; [lia|]. simpl in Hb. destruct a as [|a]; simpl in Ha.
    + inversion Ha; subst h. rewrite Forall_forall in Hh.
      apply Hh. eapply nth_error_In. exact Hb.
    + apply (IH a b); [lia|exact Ha|exact Hb].
Qed.

Lemma increasing_of_consecutive (l : list Q) :
  (forall i x y, nth_error l i = Some x -> nth_error l (S i) = Some y -> x < y) ->
  increasing l.
Proof.
  unfold increasing. induction l as [|h l IH]; intros H; constructor.
  - apply IH. intros i x y Hx Hy. apply (H (S i)); assumption.
  - destruct l as [|h' l]; constructor. apply (H O); reflexivity.
Qed.

(** Rows taken at increasing positions of an increasing column. *)
Lemma window_centres_increasing {B : Type} (ts : list Q) (w s n : nat)
  (ys : list (Q * B)) :
  (1 <= s)%nat -> increasing ts ->
  Forall2 (fun i y => nth_error ts (i * s + w / 2) = Some (fst y)) (seq 0 n) ys ->
  increasing (map fst ys).
Proof.
  intros Hs Hinc F. apply increasing_of_consecutive. intros i x y Hx Hy.
  rewrite nth_error_map in Hx, Hy.
  destruct (nth_error ys i) as [yi|] eqn:Ei; [|discriminate].
  destruct (nth_error ys (S i)) as [yj|] eqn:Ej; [|discriminate].
  inversion Hx; subst x. inversion Hy; subst y.
  assert (Hlen := Forall2_length_eq _ _ _ F). rewrite length_seq in Hlen.
  assert (Hi : (S i < n)%nat).
  { rewrite <- Hlen. apply nth_error_Some. congruence. }
  destruct (Forall2_nth_error _ _ _ i i F) as [y1 [E1 P1]].
  { rewrite nth_error_seq. destruct (Nat.ltb_spec i n); [reflexivity|lia]. }
  destruct (Forall2_nth_error _ _ _ (S i) (S i) F) as [y2 [E2 P2]].
  { rewrite nth_error_seq. destruct (Nat.ltb_spec (S i) n); [reflexivity|lia]. }
  rewrite Ei in E1. inversion E1; subst y1.
  rewrite Ej in E2. inversion E2; subst y2.
  apply (increasing_nth_lt ts (i * s + w / 2) (S i * s + w / 2));
    [exact Hinc|nia|exact P1|exact P2].
Qed.

(** X9 (csi_feature_extraction, lines 145-155, and median_filter_bitrate,
    lines 180-191).  The feature tables keep the order of time: when the
    timestamps of the input table are strictly increasing, so are the
    timestamps of the table either reducer returns, whatever the window size
    and the stride. *)
Theorem feature_timestamps_increasing
  (explained_variance : list (list cell) -> result cell) (df : DataFrame)
  (w s : nat) (out : DataFrame) :
  increasing (timestamp df) ->
  csi_feature_extraction explained_variance df w s = Ok out \/
  median_filter_bitrate df w s = Ok out ->
  increasing (timestamp out).
Proof.
  intros Hinc [H|H].
  - apply csi_feature_extraction_inv in H.
    destruct H as [Hs [ys [F [Ht _]]]]. rewrite Ht.
    apply (window_centres_increasing (timestamp df) w s
             (window_count (nrows df) w s) ys Hs Hinc).
    eapply Forall2_weaken; [|exact F]. intros i y _ [_ Hy]. exact Hy.
  - apply median_filter_bitrate_inv in H.
    destruct H as [Hs [ys [F [Ht _]]]]. rewrite Ht.
    rewrite (sort_values_ascending_timestamps df (increasing_ascending _ Hinc)) in F.
    apply (window_centres_increasing (timestamp df) w s
             (window_count (nrows df) w s) ys Hs Hinc).
    eapply Forall2_weaken; [|exact F]. intros i y _ [Hy _]. exact Hy.
Qed.

Lemma feature_timestamps_increasing_witness :
  increasing (timestamp (table_of (median_filter_bitrate bitrate_5 3 1))).
Proof.
  apply (feature_timestamps_increasing (fun _ => Ok None) bitrate_5 3 1).
  - repeat constructor.
  - right. vm_compute. reflexivity.
Defined.

(** ** Errors of the windowed reducers *)

Lemma get_column_sorted_raise (name : string) (df : DataFrame) (e : exn) :
  get_column name (columns df) = Raise e ->
  get_column name (columns (Pd.sort_values df)) = Raise e.
Proof.
  simpl. induction (columns df) as [|[n c] cols IH]; simpl; [auto|].
  destruct (String.eqb n name); [discriminate|exact IH].
Qed.

Lemma window_count_pos (n w s : nat) :
  (1 <= s)%nat -> (w <= n)%nat ->
  exists c, window_count n w s = S c.
Proof.
  intros Hs Hw. assert (H : (0 < window_count n w s)%nat)
    by (apply window_count_spec; [exact Hs|lia]).
  destruct (window_count n w s) as [|c]; [lia|]. exists c. reflexivity.
Qed.

Lemma window_count_short (n w s : nat) :
  (1 <= s)%nat -> (n < w)%nat -> window_count n w s = 0%nat.
Proof.
  intros Hs Hw. destruct (window_count n w s) eqn:E; [reflexivity|].
  assert (H : (0 < window_count n w s)%nat) by lia.
  apply window_count_spec in H; [lia|exact Hs].
Qed.

(** X10 (csi_feature_extraction, line 145, and median_filter_bitrate, lines
    185-187).  A stride of zero makes both reducers raise, whatever the
    table and the window size; and on a table without the "bitrate_bytes"
    column the median filter raises a KeyError as soon as the table has
    enough rows for one window, and returns an empty table otherwise. *)
Theorem windowed_reducers_reject
  (explained_variance : list (list cell) -> result cell) (df : DataFrame)
  (w s : nat) :
  (csi_feature_extraction explained_variance df w 0 =
     Raise (ValueError "range() arg 3 must not be zero") /\
   median_filter_bitrate df w 0 =
     Raise (ValueError "range() arg 3 must not be zero")) /\
  ((1 <= s)%nat ->
   get_column "bitrate_bytes" (columns df) = Raise (KeyError "bitrate_bytes") ->
   ((w <= nrows df)%nat ->
    median_filter_bitrate df w s = Raise (KeyError "bitrate_bytes")) /\
   ((nrows df < w)%nat ->
    median_filter_bitrate df w s =
    Ok {| timestamp := []; columns := [("bitrate_median"%string, [])] |})).
Proof.
  split; [split; reflexivity|].
  intros Hs Hcol. unfold median_filter_bitrate.
  rewrite sort_values_nrows, (window_starts_ok _ _ _ Hs). cbn [bind].
  split; intros Hw.
  - destruct (window_count_pos _ _ _ Hs Hw) as [c Hc]. rewrite Hc.
    cbn [seq map mapM]. rewrite (get_column_sorted_raise _ _ _ Hcol).
    reflexivity.
  - rewrite (window_count_short _ _ _ Hs Hw). reflexivity.
Qed.

Lemma windowed_reducers_reject_witness :
  ((3 <= nrows csi_features_3)%nat ->
   median_filter_bitrate csi_features_3 3 1 = Raise (KeyError "bitrate_bytes")) /\
  ((nrows csi_features_3 < 3)%nat ->
   median_filter_bitrate csi_features_3 3 1 =
   Ok {| timestamp := []; columns := [("bitrate_median"%string, [])] |}).
Proof.
  apply (proj2 (windowed_reducers_reject (fun _ => Ok None) csi_features_3 3 1));
    [lia|reflexivity].
Defined.

Lemma seq_split_at (n i : nat) :
  (i < n)%nat -> seq 0 n = seq 0 i ++ i :: seq (S i) (n - S i).
Proof.
  intros H. replace n with (i + S (n - S i))%nat at 1 by lia.
  rewrite seq_app. reflexivity.
Qed.

(** X11 (csi_feature_extraction, lines 145-151).  An exception of the
    principal-component fit is not caught: when the fit raises on a window
    and has succeeded on the windows before it, [csi_feature_extraction]
    raises that same exception and returns no table. *)
Theorem fit_error_propagates
  (explained_variance : list (list cell) -> result cell) (df : DataFrame)
  (w s i : nat) (e : exn) :
  (1 <= w)%nat -> (1 <= s)%nat ->
  (i * s + w <= nrows df)%nat ->
  (forall j, (j < i)%nat ->
     exists f, explained_variance (slice (j * s) w (csi_matrix df)) = Ok f) ->
  explained_variance (slice (i * s) w (csi_matrix df)) = Raise e ->
  csi_feature_extraction explained_variance df w s = Raise e.
Proof.
  intros Hw Hs Hi Hbefore Hfail. unfold csi_feature_extraction.
  rewrite csi_matrix_length, (window_starts_ok _ _ _ Hs). cbn [bind].
  assert (Hc : (i < window_count (nrows df) w s)%nat)
    by (apply window_count_spec; assumption).
  rewrite (seq_split_at _ _ Hc), map_app. cbn [map].
  rewrite (mapM_raise_first _ _ _ _ e); [reflexivity| |].
  - intros z Hz. apply in_map_iff in Hz. destruct Hz as [j [Ez Hj]]. subst z.
    apply in_seq in Hj. rewrite start_index.
    destruct (Hbefore j) as [f Hf]; [lia|]. rewrite Hf. cbn [bind].
    unfold loc_timestamp.
    destruct (nth_error (timestamp df) (j * s + w / 2)) as [t|] eqn:Et.
    + eexists. reflexivity.
    + apply nth_error_None in Et.
      assert (Hcen : (j * s + w / 2 < nrows df)%nat)
        by (apply (centre_in_range _ _ s); [exact Hw|nia]).
      unfold nrows in Hcen. lia.
  - rewrite start_index, Hfail. reflexivity.
Qed.

Lemma fit_error_propagates_witness :
  csi_feature_extraction (fun _ => Raise (ValueError "Input contains NaN."))
    csi_with_gaps 2 1 = Raise (ValueError "Input contains NaN.").
Proof.
  apply (fit_error_propagates _ csi_with_gaps 2 1 0);
    [lia|lia|unfold nrows; simpl; lia|intros j Hj; lia|reflexivity].
Defined.

(** ** Values of the feature tables *)

Lemma median_known (c : list cell) : Pd.known c <> [] -> Pd.median c <> None.
Proof.
  unfold Pd.median. intros H.
  rewrite sort_by_length.
  destruct (Pd.known c) as [|v r]; [congruence|].
  cbn [List.length].
  destruct (Nat.even (S (List.length r))); discriminate.
Qed.

Lemma known_of_all_known (c : list cell) :
  Forall (fun x => x <> None) c -> c <> [] -> Pd.known c <> [].
Proof.
  intros H Hne. destruct c as [|[v|] c]; [congruence|discriminate|].
  inversion H; congruence.
Qed.

Lemma slice_known {A : Type} (P : A -> Prop) (start w : nat) (c : list A) :
  Forall P c -> Forall P (slice start w c).
Proof.
  intros H. unfold slice. apply Forall_forall. intros x Hx.
  rewrite Forall_forall in H. apply H.
  rewrite <- (firstn_skipn start c). apply in_or_app. right.
  rewrite <- (firstn_skipn w (skipn start c)). apply in_or_app. left. exact Hx.
Qed.

Lemma slice_length {A : Type} (start w : nat) (c : list A) :
  (start + w <= List.length c)%nat -> List.length (slice start w c) = w.
Proof.
  intros H. unfold slice. rewrite length_firstn, length_skipn. lia.
Qed.

(** X12 (median_filter_bitrate, lines 180-191).  In a returned table of
    medians, row [i] holds the median of the rows [i * stride] to
    [i * stride + window_size - 1] of the bitrate_bytes column taken in
    timestamp order; and when that column has no missing value, no median
    is missing. *)
Theorem median_filter_values (df : DataFrame) (w s : nat) (out : DataFrame)
  (c : list cell) :
  median_filter_bitrate df w s = Ok out ->
  get_column "bitrate_bytes" (columns (Pd.sort_values df)) = Ok c ->
  exists medians,
    columns out = [("bitrate_median"%string, medians)] /\
    List.length medians = window_count (nrows df) w s /\
    (forall i, (i < List.length medians)%nat ->
       nth_error medians i = Some (Pd.median (slice (i * s) w c))) /\
    ((1 <= w)%nat -> List.length c = nrows df ->
     Forall (fun x => x <> None) c ->
     Forall (fun x => x <> None) medians).
Proof.
  intros H Hc. apply median_filter_bitrate_inv in H.
  destruct H as [Hs [ys [F [_ Hcols]]]].
  assert (Hlen := Forall2_length_eq _ _ _ F). rewrite length_seq in Hlen.
  assert (Hnth : forall i, (i < List.length ys)%nat ->
            nth_error (map snd ys) i = Some (Pd.median (slice (i * s) w c))).
  { intros i Hi.
    destruct (Forall2_nth_error _ _ _ i i F) as [y [Ey [_ [c' [Hc' Py]]]]].
    { rewrite nth_error_seq.
      destruct (Nat.ltb_spec i (window_count (nrows df) w s)); [reflexivity|lia]. }
    rewrite Hc in Hc'. inversion Hc'; subst c'.
    rewrite nth_error_map, Ey. simpl. rewrite Py. reflexivity. }
  exists (map snd ys). rewrite length_map.
  split; [exact Hcols|]. split; [exact Hlen|]. split; [exact Hnth|].
  intros Hw Hcl Hk. apply Forall_forall. intros x Hx.
  apply In_nth_error in Hx. destruct Hx as [i Hi].
  assert (Hlt : (i < List.length ys)%nat).
  { rewrite <- (length_map snd). apply nth_error_Some. congruence. }
  rewrite (Hnth i Hlt) in Hi. inversion Hi; subst x.
  apply median_known, known_of_all_known; [apply slice_known, Hk|].
  assert (Hwin : (i * s + w <= nrows df)%nat)
    by (apply window_count_spec; [exact Hs|lia]).
  intros E. apply (f_equal (@List.length cell)) in E.
  rewrite slice_length in E by lia. simpl in E. lia.
Qed.

Lemma median_filter_values_witness :
  exists medians,
    columns (table_of (median_filter_bitrate bitrate_5 3 1)) =
      [("bitrate_median"%string, medians)] /\
    List.length medians = window_count (nrows bitrate_5) 3 1 /\
    (forall i, (i < List.length medians)%nat ->
       nth_error medians i =
       Some (Pd.median (slice (i * 1) 3
                          [Some 10; Some 20; Some 30; Some 40; Some 50]))) /\
    ((1 <= 3)%nat ->
     List.length [Some 10; Some 20; Some 30; Some 40; Some 50] = nrows bitrate_5 ->
     Forall (fun x => x <> None) [Some 10; Some 20; Some 30; Some 40; Some 50] ->
     Forall (fun x => x <> None) medians).
Proof.
  apply (median_filter_values bitrate_5 3 1); vm_compute; reflexivity.
Defined.

Lemma round2_hundredths (q : Q) : exists k, Np.round2 q == inject_Z k / 100.
Proof. exists (Np.rint (q * 100)). reflexivity. Qed.

(** X13 (csi_feature_extraction, lines 145-155).  In a returned table of
    CSI features, row [i] holds the explained variance the fit gave for the
    rows [i * stride] to [i * stride + window_size - 1] of the subcarrier
    matrix, rounded half to even at the second decimal; every known feature
    is therefore a whole number of hundredths. *)
Theorem csi_feature_values
  (explained_variance : list (list cell) -> result cell) (df : DataFrame)
  (w s : nat) (out : DataFrame) :
  csi_feature_extraction explained_variance df w s = Ok out ->
  exists features,
    columns out = [("csi_feature"%string, features)] /\
    List.length features = window_count (nrows df) w s /\
    (forall i, (i < List.length features)%nat ->
       exists f,
         explained_variance (slice (i * s) w (csi_matrix df)) = Ok f /\
         nth_error features i = Some (option_map Np.round2 f)) /\
    (forall v, In (Some v) features -> exists k, v == inject_Z k / 100).
Proof.
  intros H. apply csi_feature_extraction_inv in H.
  destruct H as [Hs [ys [F [_ Hcols]]]].
  assert (Hlen := Forall2_length_eq _ _ _ F). rewrite length_seq in Hlen.
  exists (map (option_map Np.round2) (map snd ys)). rewrite !length_map.
  split; [exact Hcols|]. split; [exact Hlen|]. split.
  - intros i Hi.
    destruct (Forall2_nth_error _ _ _ i i F) as [y [Ey [Py _]]].
    { rewrite nth_error_seq.
      destruct (Nat.ltb_spec i (window_count (nrows df) w s)); [reflexivity|lia]. }
    exists (snd y). split; [exact Py|].
    rewrite !nth_error_map, Ey. reflexivity.
  - intros v Hv. apply in_map_iff in Hv. destruct Hv as [[f|] [E _]];
      [|discriminate].
    inversion E; subst v. apply round2_hundredths.
Qed.

Lemma csi_feature_values_witness :
  exists features,
    columns (table_of (csi_feature_extraction (fun _ => Ok (Some (1 # 3)))
                         csi_with_gaps 2 1)) =
      [("csi_feature"%string, features)] /\
    List.length features = window_count (nrows csi_with_gaps) 2 1 /\
    (forall i, (i < List.length features)%nat ->
       exists f,
         (fun _ : list (list cell) => Ok (Some (1 # 3)))
           (slice (i * 1) 2 (csi_matrix csi_with_gaps)) = Ok f /\
         nth_error features i = Some (option_map Np.round2 f)) /\
    (forall v, In (Some v) features -> exists k, v == inject_Z k / 100).
Proof.
  apply (csi_feature_values (fun _ => Ok (Some (1 # 3))) csi_with_gaps 2 1).
  vm_compute. reflexivity.
Defined.

(** ** Rows of a join *)

Lemma in_combine_seq_iff {A : Type} (l : list A) (s i : nat) (x : A) :
  In (i, x) (combine (seq s (List.length l)) l) <->
  (s <= i)%nat /\ nth_error l (i - s) = Some x.
Proof.
  revert s. induction l as [|y l IH]; intros s; simpl.
  - split; [contradiction|]. intros [_ H]. destruct (i - s)%nat; discriminate.
  - rewrite IH. split.
    + intros [H|[H1 H2]].
      * inversion H; subst. rewrite Nat.sub_diag. split; [lia|reflexivity].
      * split; [lia|]. replace (i - s)%nat with (S (i - S s)) by lia. exact H2.
    + intros [H1 H2]. destruct (Nat.eq_dec s i) as [E|E].
      * subst. rewrite Nat.sub_diag in H2. inversion H2. left. reflexivity.
      * right. split; [lia|].
        replace (i - s)%nat with (S (i - S s)) in H2 by lia. exact H2.
Qed.

Lemma in_indexed {A : Type} (l : list A) (i : nat) (x : A) :
  In (i, x) (indexed l) <-> nth_error l i = Some x.
Proof.
  unfold indexed. rewrite in_combine_seq_iff, Nat.sub_0_r.
  split; [intros [_ H]; exact H|intros H; split; [lia|exact H]].
Qed.

Lemma in_matches (t : Q) (right : list Q) (j : nat) :
  In j (matches t right) <->
  exists u, nth_error right j = Some u /\ Qeq_bool t u = true.
Proof.
  unfold matches. rewrite in_map_iff. split.
  - intros [[j' u] [E H]]. simpl in E. subst j'.
    apply filter_In in H. destruct H as [H1 H2].
    exists u. split; [apply in_indexed, H1|exact H2].
  - intros [u [H1 H2]]. exists (j, u). split; [reflexivity|].
    apply filter_In. split; [apply in_indexed, H1|exact H2].
Qed.

(** The row pairs of an inner join: the pairs of rows of equal key. *)
Lemma in_join_inner (left right : list Q) (p : option nat * option nat) :
  In p (join_indexers inner left right) <->
  exists i j t u,
    p = (Some i, Some j) /\ nth_error left i = Some t /\
    nth_error right j = Some u /\ Qeq_bool t u = true.
Proof.
  unfold join_indexers. rewrite in_flat_map. split.
  - intros [[i t] [Hit Hp]]. cbn [fst snd] in Hp. apply in_indexed in Hit.
    assert (Hp' : In p (map (fun j => (Some i, Some j)) (matches t right)))
      by (destruct (matches t right); exact Hp).
    apply in_map_iff in Hp'. destruct Hp' as [j [E Hj]].
    apply in_matches in Hj. destruct Hj as [u [Hu Hq]].
    exists i, j, t, u. auto.
  - intros [i [j [t [u [E [Hi [Hj Hq]]]]]]]. exists (i, t).
    split; [apply in_indexed, Hi|]. cbn [fst snd].
    assert (Hin : In j (matches t right)) by (apply in_matches; exists u; auto).
    assert (Hp : In p (map (fun j => (Some i, Some j)) (matches t right)))
      by (subst p; apply (in_map (fun j => (Some i, Some j))), Hin).
    destruct (matches t right); exact Hp.
Qed.

Lemma matches_nil (t : Q) (right : list Q) :
  matches t right = [] <-> ~ has_time t right.
Proof.
  split.
  - intros E [u [Hin Hu]]. apply In_nth_error in Hin. destruct Hin as [j Hj].
    assert (H : In j (matches t right)).
    { apply in_matches. exists u. split; [exact Hj|].
      apply Qeq_bool_iff. symmetry. exact Hu. }
    rewrite E in H. contradiction.
  - intros H. destruct (matches t right) as [|j js] eqn:E; [reflexivity|].
    exfalso. apply H.
    assert (Hj : In j (matches t right)) by (rewrite E; left; reflexivity).
    apply in_matches in Hj. destruct Hj as [u [Hu Hq]].
    exists u. split; [eapply nth_error_In; exact Hu|].
    symmetry. apply Qeq_bool_iff, Hq.
Qed.

(** The row pairs of an outer join: the pairs of an inner join, the left
    rows without a partner and the right rows without a partner. *)
Lemma in_join_outer (left right : list Q) (p : option nat * option nat) :
  In p (join_indexers outer left right) <->
  In p (join_indexers inner left right) \/
  (exists i t, p = (Some i, None) /\ nth_error left i = Some t /\
               ~ has_time t right) \/
  (exists j u, p = (None, Some j) /\ nth_error right j = Some u /\
               ~ has_time u left).
Proof.
  unfold join_indexers at 1. rewrite in_app_iff, in_flat_map, in_map_iff. split.
  - intros [[[i t] [Hit Hp]]|[[j u] [E Hju]]].
    + cbn [fst snd] in Hp. apply in_indexed in Hit.
      destruct (matches t right) as [|j js] eqn:Em.
      * right. left. destruct Hp as [Hp|[]]. exists i, t.
        split; [auto|]. split; [exact Hit|apply matches_nil, Em].
      * left. apply in_map_iff in Hp. destruct Hp as [j' [E Hj']].
        rewrite <- Em in Hj'. apply in_matches in Hj'.
        destruct Hj' as [u [Hu Hq]]. apply in_join_inner.
        exists i, j', t, u. auto.
    + right. right. apply filter_In in Hju. destruct Hju as [Hin Hm].
      apply in_indexed in Hin. cbn [fst snd] in *. exists j, u.
      split; [auto|]. split; [exact Hin|]. apply matches_nil.
      destruct (matches u left); [reflexivity|discriminate].
  - intros [H|[[i [t [E [Hi Hn]]]]|[j [u [E [Hj Hn]]]]]].
    + left. apply in_join_inner in H.
      destruct H as [i [j [t [u [E [Hi [Hj Hq]]]]]]]. exists (i, t).
      split; [apply in_indexed, Hi|]. cbn [fst snd].
      assert (Hin : In j (matches t right)) by (apply in_matches; exists u; auto).
      destruct (matches t right) as [|j0 js]; [contradiction|].
      subst p. apply (in_map (fun j => (Some i, Some j))), Hin.
    + left. exists (i, t). split; [apply in_indexed, Hi|]. cbn [fst snd].
      apply matches_nil in Hn. rewrite Hn. left. auto.
    + right. exists (j, u). split; [auto|]. apply filter_In.
      split; [apply in_indexed, Hj|]. cbn [snd].
      apply matches_nil in Hn. rewrite Hn. reflexivity.
Qed.

Lemma has_time_nth (t : Q) (l : list Q) :
  has_time t l <-> exists i u, nth_error l i = Some u /\ u == t.
Proof.
  split.
  - intros [u [Hin E]]. apply In_nth_error in Hin. destruct Hin as [i Hi].
    exists i, u. auto.
  - intros [i [u [Hi E]]]. exists u. split; [eapply nth_error_In; exact Hi|exact E].
Qed.

Lemma join_features_has_time (a b : DataFrame) (how : join_mode) (t : Q) :
  has_time t (timestamp (join_features a b how)) <->
  has_time t (timestamp (merge a b how)).
Proof.
  unfold join_features.
  split; apply has_time_perm;
    [apply Permutation_sym|]; apply sort_values_perm.
Qed.

Lemma merge_has_time (a b : DataFrame) (how : join_mode) (t : Q) :
  has_time t (timestamp (merge a b how)) <->
  exists p, In p (join_indexers how (timestamp a) (timestamp b)) /\
    match p with
    | (Some i, _) => nth i (timestamp a) 0
    | (None, Some j) => nth j (timestamp b) 0
    | (None, None) => 0
    end == t.
Proof.
  unfold merge, has_time. cbn [timestamp]. split.
  - intros [u [Hin E]]. apply in_map_iff in Hin. destruct Hin as [p [Ep Hp]].
    exists p. subst u. auto.
  - intros [p [Hp E]]. eexists. split; [|exact E].
    apply in_map_iff. exists p. auto.
Qed.

Lemma Qeq_bool_of_eq (x y : Q) : x == y -> Qeq_bool x y = true.
Proof. apply Qeq_bool_iff. Qed.

(** X14 (join_features, lines 261-262).  The timestamps of an inner join
    are those that both feature tables hold, the timestamps of an outer join
    (the default mode) those that either table holds; in both modes the rows
    come out in ascending order of timestamp, the columns are those of the
    first table followed by those of the second, and every column has one
    cell per row. *)
Theorem join_features_timestamps (csi_feature_df bitrate_filtered_df : DataFrame)
  (t : Q) :
  (has_time t (timestamp (join_features csi_feature_df bitrate_filtered_df inner)) <->
   has_time t (timestamp csi_feature_df) /\
   has_time t (timestamp bitrate_filtered_df)) /\
  (has_time t (timestamp (join_features csi_feature_df bitrate_filtered_df outer)) <->
   has_time t (timestamp csi_feature_df) \/
   has_time t (timestamp bitrate_filtered_df)) /\
  (forall how,
     let joined := join_features csi_feature_df bitrate_filtered_df how in
     ascending (timestamp joined) /\
     column_names joined =
       column_names csi_feature_df ++ column_names bitrate_filtered_df /\
     Forall (fun nc => List.length (snd nc) = nrows joined) (columns joined)).
Proof.
  set (ta := timestamp csi_feature_df). set (tb := timestamp bitrate_filtered_df).
  assert (Hinner : has_time t (timestamp (merge csi_feature_df bitrate_filtered_df inner))
                   <-> has_time t ta /\ has_time t tb).
  { rewrite merge_has_time. fold ta tb. split.
    - intros [p [Hp E]]. apply in_join_inner in Hp.
      destruct Hp as [i [j [ti [u [Ep [Hi [Hj Hq]]]]]]]. subst p.
      rewrite (nth_error_nth _ _ 0 Hi) in E. apply Qeq_bool_iff in Hq.
      split; apply has_time_nth.
      + exists i, ti. auto.
      + exists j, u. split; [exact Hj|]. rewrite <- Hq. exact E.
    - intros [Ha Hb]. apply has_time_nth in Ha, Hb.
      destruct Ha as [i [ti [Hi Ei]]]. destruct Hb as [j [u [Hj Eu]]].
      exists (Some i, Some j). split.
      + apply in_join_inner. exists i, j, ti, u.
        repeat split; auto. apply Qeq_bool_of_eq. rewrite Ei, Eu. reflexivity.
      + rewrite (nth_error_nth _ _ 0 Hi). exact Ei. }
  split; [rewrite join_features_has_time; exact Hinner|].
  split.
  - rewrite join_features_has_time, merge_has_time. fold ta tb. split.
    + intros [p [Hp E]]. apply in_join_outer in Hp.
      destruct Hp as [Hp|[[i [ti [Ep [Hi _]]]]|[j [u [Ep [Hj _]]]]]].
      * left. apply Hinner. apply merge_has_time. exists p. auto.
      * subst p. rewrite (nth_error_nth _ _ 0 Hi) in E.
        left. apply has_time_nth. exists i, ti. auto.
      * subst p. rewrite (nth_error_nth _ _ 0 Hj) in E.
        right. apply has_time_nth. exists j, u. auto.
    + intros [Ha|Hb].
      * apply has_time_nth in Ha. destruct Ha as [i [ti [Hi Ei]]].
        destruct (matches ti tb) as [|j js] eqn:Em.
        -- exists (Some i, None). split.
           ++ apply in_join_outer. right. left. exists i, ti.
              split; [reflexivity|]. split; [exact Hi|apply matches_nil, Em].
           ++ rewrite (nth_error_nth _ _ 0 Hi). exact Ei.
        -- assert (Hj : In j (matches ti tb)) by (rewrite Em; left; reflexivity).
           apply in_matches in Hj. destruct Hj as [u [Hj Hq]].
           exists (Some i, Some j). split.
           ++ apply in_join_outer. left. apply in_join_inner.
              exists i, j, ti, u. auto.
           ++ rewrite (nth_error_nth _ _ 0 Hi). exact Ei.
      * apply has_time_nth in Hb. destruct Hb as [j [u [Hj Eu]]].
        destruct (matches u ta) as [|i more] eqn:Em.
        -- exists (None, Some j). split.
           ++ apply in_join_outer. right. right. exists j, u.
              split; [reflexivity|]. split; [exact Hj|apply matches_nil, Em].
           ++ rewrite (nth_error_nth _ _ 0 Hj). exact Eu.
        -- assert (Hi : In i (matches u ta)) by (rewrite Em; left; reflexivity).
           apply in_matches in Hi. destruct Hi as [ti [Hi Hq]].
           apply Qeq_bool_iff in Hq.
           exists (Some i, Some j). split.
           ++ apply in_join_outer. left. apply in_join_inner.
              exists i, j, ti, u. repeat split; auto.
              apply Qeq_bool_of_eq. symmetry. exact Hq.
           ++ rewrite (nth_error_nth _ _ 0 Hi), <- Hq. exact Eu.
  - intros how joined. subst joined. unfold join_features.
    split; [apply sort_values_ascending|]. split.
    + rewrite sort_values_names. unfold column_names, merge. cbn [columns].
      rewrite map_app, !map_map. reflexivity.
    + rewrite sort_values_nrows. apply sort_values_column_length.
Qed.

Lemma take_nth_error {A : Type} (d : A) (indexer : list nat) (c : list A)
  (r p : nat) :
  nth_error indexer r = Some p ->
  nth_error (Pd.take d indexer c) r = Some (nth p c d).
Proof. intros H. unfold Pd.take. rewrite nth_error_map, H. reflexivity. Qed.

Lemma take_opt_nth {A : Type} (indexer : list (option nat)) (col : list (option A))
  (p i : nat) :
  nth_error indexer p = Some (Some i) ->
  nth p (take_opt indexer col) None = nth i col None.
Proof.
  intros H. unfold take_opt.
  apply (nth_error_nth _ _ None). rewrite nth_error_map, H. reflexivity.
Qed.

(** X15 (join_features, lines 261-262).  Every row of an inner join pairs
    one row of each table with the same timestamp: the row carries that
    timestamp, in the columns of the first table the cells of the one row
    and in the columns of the second table the cells of the other. *)
Theorem inner_join_row_values (csi_feature_df bitrate_filtered_df : DataFrame)
  (r : nat) :
  let joined := join_features csi_feature_df bitrate_filtered_df inner in
  (r < nrows joined)%nat ->
  exists i j t u,
    nth_error (timestamp csi_feature_df) i = Some t /\
    nth_error (timestamp bitrate_filtered_df) j = Some u /\
    t == u /\
    nth_error (timestamp joined) r = Some t /\
    (forall k name col,
       nth_error (columns csi_feature_df) k = Some (name, col) ->
       exists cells,
         nth_error (columns joined) k = Some (name, cells) /\
         nth_error cells r = Some (nth i col None)) /\
    (forall k name col,
       nth_error (columns bitrate_filtered_df) k = Some (name, col) ->
       exists cells,
         nth_error (columns joined)
           (List.length (columns csi_feature_df) + k) = Some (name, cells) /\
         nth_error cells r = Some (nth j col None)).
Proof.
  intros joined Hr. subst joined. unfold join_features in *.
  set (M := merge csi_feature_df bitrate_filtered_df inner) in *.
  set (pairs := join_indexers inner (timestamp csi_feature_df)
                  (timestamp bitrate_filtered_df)).
  rewrite sort_values_nrows in Hr. unfold nrows in Hr.
  destruct (nth_error (Pd.argsort (timestamp M)) r) as [p|] eqn:Ep.
  2:{ apply nth_error_None in Ep. rewrite argsort_length in Ep. lia. }
  assert (Hp : (p < List.length pairs)%nat).
  { assert (H := argsort_in_range (timestamp M) p (nth_error_In _ _ Ep)).
    unfold M, merge in H. cbn [timestamp] in H. rewrite length_map in H. exact H. }
  destruct (nth_error pairs p) as [q|] eqn:Eq.
  2:{ apply nth_error_None in Eq. lia. }
  assert (Hq := nth_error_In _ _ Eq). apply in_join_inner in Hq.
  destruct Hq as [i [j [t [u [E [Hi [Hj Hb]]]]]]]. subst q.
  exists i, j, t, u. split; [exact Hi|]. split; [exact Hj|].
  split; [apply Qeq_bool_iff, Hb|]. split; [|split].
  - cbn [Pd.sort_values timestamp]. rewrite (take_nth_error _ _ _ _ _ Ep).
    f_equal. unfold M, merge. cbn [timestamp]. fold pairs.
    apply (nth_error_nth _ _ 0). rewrite nth_error_map, Eq. cbn [option_map].
    f_equal. apply (nth_error_nth _ _ 0 Hi).
  - intros k name col Hk. eexists. split.
    + cbn [Pd.sort_values columns]. unfold M, merge. cbn [columns]. fold pairs.
      rewrite nth_error_map, nth_error_app1
        by (rewrite length_map; apply nth_error_Some; congruence).
      rewrite nth_error_map, Hk. reflexivity.
    + cbn [fst snd]. rewrite (take_nth_error _ _ _ _ _ Ep). f_equal.
      apply take_opt_nth. rewrite nth_error_map, Eq. reflexivity.
  - intros k name col Hk. eexists. split.
    + cbn [Pd.sort_values columns]. unfold M, merge. cbn [columns]. fold pairs.
      rewrite nth_error_map, nth_error_app2 by (rewrite length_map; lia).
      rewrite length_map.
      replace (List.length (columns csi_feature_df) + k -
               List.length (columns csi_feature_df))%nat with k by lia.
      rewrite nth_error_map, Hk. reflexivity.
    + cbn [fst snd]. rewrite (take_nth_error _ _ _ _ _ Ep). f_equal.
      apply take_opt_nth. rewrite nth_error_map, Eq. reflexivity.
Qed.

Lemma inner_join_row_values_witness :
  let joined := join_features csi_features_3 bitrate_medians_shifted inner in
  exists i j t u,
    nth_error (timestamp csi_features_3) i = Some t /\
    nth_error (timestamp bitrate_medians_shifted) j = Some u /\
    t == u /\
    nth_error (timestamp joined) 1 = Some t /\
    (forall k name col,
       nth_error (columns csi_features_3) k = Some (name, col) ->
       exists cells,
         nth_error (columns joined) k = Some (name, cells) /\
         nth_error cells 1 = Some (nth i col None)) /\
    (forall k name col,
       nth_error (columns bitrate_medians_shifted) k = Some (name, col) ->
       exists cells,
         nth_error (columns joined)
           (List.length (columns csi_features_3) + k) = Some (name, cells) /\
         nth_error cells 1 = Some (nth j col None)).
Proof.
  apply (inner_join_row_values csi_features_3 bitrate_medians_shifted 1).
  vm_compute. reflexivity.
Defined.

(** ** The pipeline of one file set *)

Lemma align_csi_magnitude_returns (csi_data : list (list Q)) (ts : list Q)
  (ti : Q) (n : option Z) (m : string) :
  0 < ti -> ts <> [] -> List.length ts = List.length csi_data ->
  valid_count n -> supported m ->
  exists out, align_csi_magnitude csi_data ts ti n m = Ok out.
Proof.
  intros Hti Hne Hlen Hn Hm.
  destruct (select_subcarriers_ok csi_data n Hn) as [data [k [Hsel Hd]]].
  destruct (aggregation_supported _ Hm) as [agg Hagg].
  destruct (full_timeline ti ts Hti Hne)
    as [lo [hi [rlo [rhi [grid [_ [_ [Hrlo [Hrhi [Hg _]]]]]]]]]].
  unfold align_csi_magnitude. rewrite Hsel. cbn [bind fst snd].
  rewrite length_map, Hlen, Hd, Nat.eqb_refl. cbn [negb].
  rewrite Hagg, Hrlo, Hrhi. cbn [bind]. rewrite Hg. cbn [bind].
  eexists. reflexivity.
Qed.


Lemma align_csi_magnitude_empty (csi_data : list (list Q)) (ti : Q)
  (n : option Z) (m : string) :
  raises (align_csi_magnitude csi_data [] ti n m).
Proof.
  unfold align_csi_magnitude.
  destruct (select_subcarriers csi_data n) as [sel|e]; cbn [bind];
    [|eexists; reflexivity].
  destruct (negb _); [eexists; reflexivity|].
  destruct (aggregation m); cbn [bind map Np.min]; eexists; reflexivity.
Qed.









(** X17 (process_file_set, lines 269-299).  A failed read ends the call
    before any processing, whichever of the three files it concerns; the
    steps after the reads are not guarded: with an empty list of CSI
    timestamps, or with no bitrate record after a CSI capture that aligns,
    the exception of the aligner escapes the call and no table is joined. *)
Theorem process_file_set_failures
  (explained_variance : list (list cell) -> result cell)
  (csi_mag : result (list (list Q))) (csi_meta : result (list Q))
  (br : result BitrateFrame) (csi_data : list (list Q))
  (csi_timestamps : list Q) (lengths : list Z) (stored : option (list Q)) :
  ((raises csi_mag \/ raises csi_meta \/ raises br) ->
   process_file_set explained_variance csi_mag csi_meta br = None) /\
  (forall br_df,
     exists e,
       process_file_set explained_variance (Ok csi_data) (Ok []) (Ok br_df) =
       Some (Raise e)) /\
  (csi_timestamps <> [] ->
   List.length csi_timestamps = List.length csi_data ->
   exists e,
     process_file_set explained_variance (Ok csi_data) (Ok csi_timestamps)
       (Ok {| frame_time := []; ws_col_Length := lengths;
              br_timestamp := stored |}) = Some (Raise e)).
Proof.
  split; [|split].
  - intros [[e H]|[[e H]|[e H]]]; subst; unfold process_file_set.
    + reflexivity.
    + destruct csi_mag; reflexivity.
    + destruct csi_mag; [destruct csi_meta|]; reflexivity.
  - intros br_df. unfold process_file_set.
    destruct (align_csi_magnitude_empty csi_data (1 # 10) (Some 12%Z) "mean")
      as [e He].
    rewrite He. exists e. reflexivity.
  - intros Hne Hlen. unfold process_file_set.
    destruct (align_csi_magnitude_returns csi_data csi_timestamps (1 # 10)
                (Some 12%Z) "mean") as [ca Hca];
      [reflexivity|exact Hne|exact Hlen|simpl; lia|left; reflexivity|].
    rewrite Hca. cbn [bind]. eexists. reflexivity.
Qed.


Lemma process_file_set_failures_witness :
  exists e,
    process_file_set (fun _ => Ok (Some 0)) (Ok [[1]; [2]; [6]])
      (Ok [4 # 100; 6 # 100; 8 # 100])
      (Ok {| frame_time := []; ws_col_Length := []; br_timestamp := None |}) =
    Some (Raise e).
Proof.
  apply (proj2 (proj2 (process_file_set_failures (fun _ => Ok (Some 0))
           (Ok []) (Ok []) (Ok bitrate_raw_3) [[1]; [2]; [6]]
           [4 # 100; 6 # 100; 8 # 100] [] None)));
    [discriminate|reflexivity].
Defined.

(** ** The file sets [main] goes through *)

Lemma insert_name_length (x : string) (l : list string) :
  List.length (insert_name x l) = S (List.length l).
Proof.
  induction l as [|y l IH]; simpl; [reflexivity|].
  destruct (String.leb x y); simpl; [reflexivity|]. rewrite IH. reflexivity.
Qed.

Lemma sorted_length (l : list string) : List.length (sorted l) = List.length l.
Proof.
  induction l as [|x l IH]; simpl; [reflexivity|].
  rewrite insert_name_length, IH. reflexivity.
Qed.

Lemma main_num_sets (br csi_meta csi_mag : list string) :
  Nat.min (List.length (sorted br))
          (Nat.min (List.length (sorted csi_meta)) (List.length (sorted csi_mag))) =
  num_sets_of br csi_meta csi_mag.
Proof. rewrite !sorted_length. reflexivity. Qed.

Lemma report_index_check_set (a b c : list string) (i : nat) :
  report_index (check_set a b c i) = i.
Proof. unfold check_set. destruct (_ && _); reflexivity. Qed.

Lemma run_sets_cons (process : string -> string -> string -> option exn)
  (a b c : list string) (i : nat) (rest : list nat) :
  run_sets process a b c (i :: rest) =
  match set_outcome process a b c i with
  | Some e => inl (Escaped i e)
  | None =>
      match run_sets process a b c rest with
      | inl e => inl e
      | inr rs => inr (check_set a b c i :: rs)
      end
  end.
Proof. reflexivity. Qed.

Lemma run_sets_returns (process : string -> string -> string -> option exn)
  (a b c : list string) (indices : list nat) :
  (forall i, In i indices -> set_outcome process a b c i = None) ->
  run_sets process a b c indices = inr (map (check_set a b c) indices).
Proof.
  induction indices as [|i rest IH]; intros H; [reflexivity|].
  rewrite run_sets_cons, (H i (or_introl eq_refl)), IH; [reflexivity|].
  intros j Hj. apply H. right. exact Hj.
Qed.

Lemma run_sets_reports (process : string -> string -> string -> option exn)
  (a b c : list string) (indices : list nat) (rs : list set_report) :
  run_sets process a b c indices = inr rs ->
  rs = map (check_set a b c) indices /\
  forall i, In i indices -> set_outcome process a b c i = None.
Proof.
  revert rs. induction indices as [|i rest IH]; intros rs H.
  - inversion H. split; [reflexivity|intros i []].
  - rewrite run_sets_cons in H.
    destruct (set_outcome process a b c i) eqn:Ei; [discriminate|].
    destruct (run_sets process a b c rest) as [x|rs'] eqn:Er; [discriminate|].
    inversion H; subst rs. destruct (IH rs' eq_refl) as [E Hall].
    split; [simpl; rewrite E; reflexivity|].
    intros j [Hj|Hj]; [subst j; exact Ei|apply Hall, Hj].
Qed.

Lemma run_sets_seq_raises (process : string -> string -> string -> option exn)
  (a b c : list string) (len start : nat) (x : main_exn) :
  run_sets process a b c (seq start len) = inl x ->
  exists i e,
    x = Escaped i e /\ (start <= i < start + len)%nat /\
    set_outcome process a b c i = Some e /\
    forall j, (start <= j < i)%nat -> set_outcome process a b c j = None.
Proof.
  revert start. induction len as [|len IH]; intros start H; [discriminate|].
  cbn [seq] in H. rewrite run_sets_cons in H.
  destruct (set_outcome process a b c start) as [e|] eqn:Es.
  - inversion H. exists start, e.
    split; [reflexivity|]. split; [lia|]. split; [exact Es|]. intros j Hj. lia.
  - destruct (run_sets process a b c (seq (S start) len)) as [y|rs] eqn:Er;
      [|discriminate].
    inversion H; subst y. destruct (IH (S start) Er) as [i [e [Ex [Hi [Ei Hbefore]]]]].
    exists i, e. split; [exact Ex|]. split; [lia|]. split; [exact Ei|].
    intros j Hj. destruct (Nat.eq_dec j start) as [->|Hne]; [exact Es|].
    apply Hbefore. lia.
Qed.

Lemma run_sets_seq_first (process : string -> string -> string -> option exn)
  (a b c : list string) (len start i : nat) (e : exn) :
  (start <= i < start + len)%nat ->
  set_outcome process a b c i = Some e ->
  (forall j, (start <= j < i)%nat -> set_outcome process a b c j = None) ->
  run_sets process a b c (seq start len) = inl (Escaped i e).
Proof.
  revert start. induction len as [|len IH]; intros start Hi Ei Hbefore; [lia|].
  cbn [seq]. rewrite run_sets_cons.
  destruct (Nat.eq_dec i start) as [->|Hne].
  - rewrite Ei. reflexivity.
  - rewrite (Hbefore start) by lia.
    rewrite (IH (S start)); [reflexivity|lia|exact Ei|].
    intros j Hj. apply Hbefore. lia.
Qed.

Lemma set_outcome_fails (process : string -> string -> string -> option exn)
  (br csi_meta csi_mag : list string) (i : nat) (e : exn) :
  (i < num_sets_of br csi_meta csi_mag)%nat ->
  set_outcome process (sorted br) (sorted csi_meta) (sorted csi_mag) i = Some e <->
  fails_at process br csi_meta csi_mag i e.
Proof.
  intros Hi.
  assert (Hn : (i < List.length (sorted br) /\
                i < List.length (sorted csi_meta) /\
                i < List.length (sorted csi_mag))%nat).
  { rewrite !sorted_length. unfold num_sets_of in Hi. lia. }
  destruct Hn as [N1 [N2 N3]].
  unfold set_outcome, check_set, fails_at.
  rewrite (nth_error_nth' (sorted br) EmptyString N1),
          (nth_error_nth' (sorted csi_meta) EmptyString N2),
          (nth_error_nth' (sorted csi_mag) EmptyString N3).
  set (b := nth i (sorted br) EmptyString).
  set (m := nth i (sorted csi_meta) EmptyString).
  set (g := nth i (sorted csi_mag) EmptyString).
  destruct (String.eqb_spec (segment b) (segment m)) as [E1|E1]; cbn [andb].
  - destruct (String.eqb_spec (segment m) (segment g)) as [E2|E2].
    + split.
      * intros H. exists b, m, g. repeat split; assumption.
      * intros [b' [m' [g' [Hb [Hm [Hg [_ [_ H]]]]]]]].
        inversion Hb; inversion Hm; inversion Hg; subst. exact H.
    + split; [discriminate|].
      intros [b' [m' [g' [Hb [Hm [Hg [_ [F _]]]]]]]].
      inversion Hb; inversion Hm; inversion Hg; subst. contradiction.
  - split; [discriminate|].
    intros [b' [m' [g' [Hb [Hm [Hg [F _]]]]]]].
    inversion Hb; inversion Hm; inversion Hg; subst. contradiction.
Qed.

Lemma set_outcome_returns (process : string -> string -> string -> option exn)
  (a b c : list string) (i : nat) :
  (forall g m b', process g m b' = None) ->
  set_outcome process a b c i = None.
Proof.
  intros H. unfold set_outcome. destruct (check_set a b c i); auto.
Qed.

(** X18 (main, lines 330-352).  [main] raises FileNotFoundError for the
    first of the three subfolders that is no directory.  Otherwise, with
    [n] the least number of files in a subfolder: when a subfolder is empty
    it goes through no set and raises nothing, whatever the selector [t];
    a selector above [n] raises IndexError; and, as long as
    [process_file_set] raises on no set, a selector from 1 to [n] goes
    through the one set of rank [t - 1] and a selector of zero or less goes
    through the sets of rank 0 to [n - 1] in order. *)
Theorem main_selects_sets (process : string -> string -> string -> option exn)
  (t : Z) (br csi_meta csi_mag : list string) :
  let n := num_sets_of br csi_meta csi_mag in
  let fs := {| br_metadata := Some br; csi_metadata := Some csi_meta;
               csi_magnitude_data := Some csi_mag |} in
  (forall others1 others2,
     main process t {| br_metadata := None; csi_metadata := others1;
                       csi_magnitude_data := others2 |} =
     inl (FileNotFoundError "br_metadata") /\
     main process t {| br_metadata := Some br; csi_metadata := None;
                       csi_magnitude_data := others2 |} =
     inl (FileNotFoundError "csi_metadata") /\
     main process t {| br_metadata := Some br; csi_metadata := Some csi_meta;
                       csi_magnitude_data := None |} =
     inl (FileNotFoundError "csi_magnitude_data")) /\
  (n = 0%nat -> main process t fs = inr []) /\
  ((0 < n)%nat -> (Z.of_nat n < t)%Z ->
   main process t fs = inl (IndexError t n)) /\
  ((forall g m b, process g m b = None) ->
   ((0 < n)%nat -> (1 <= t <= Z.of_nat n)%Z ->
    exists r, main process t fs = inr [r] /\
              report_index r = Z.to_nat (t - 1)) /\
   ((0 < n)%nat -> (t <= 0)%Z ->
    exists rs, main process t fs = inr rs /\
               map report_index rs = seq 0 n)).
Proof.
  intros n fs.
  split; [intros o1 o2; repeat split|].
  unfold main, fs. cbn [br_metadata csi_metadata csi_magnitude_data].
  rewrite main_num_sets. fold n.
  split; [intros E; rewrite E; reflexivity|].
  split; [|intros Hp; split].
  - intros Hn Ht. destruct (Nat.eqb_spec n 0); [lia|].
    destruct (Z.ltb_spec 0 t); [|lia].
    destruct (Z.ltb_spec (Z.of_nat n) t); [reflexivity|lia].
  - intros Hn Ht. destruct (Nat.eqb_spec n 0); [lia|].
    destruct (Z.ltb_spec 0 t); [|lia].
    destruct (Z.ltb_spec (Z.of_nat n) t); [lia|].
    rewrite run_sets_returns
      by (intros i _; apply set_outcome_returns, Hp).
    eexists. split; [reflexivity|apply report_index_check_set].
  - intros Hn Ht. destruct (Nat.eqb_spec n 0); [lia|].
    destruct (Z.ltb_spec 0 t); [lia|].
    rewrite run_sets_returns
      by (intros i _; apply set_outcome_returns, Hp).
    eexists. split; [reflexivity|].
    rewrite map_map. rewrite <- (map_id (seq 0 n)) at 2.
    apply map_ext. intros i. apply report_index_check_set.
Qed.

Lemma main_selects_sets_witness :
  exists r,
    main (fun _ _ _ => None) 5
      {| br_metadata := Some listing_5; csi_metadata := Some listing_5;
         csi_magnitude_data := Some listing_5 |} = inr [r] /\
    report_index r = Z.to_nat (5 - 1).
Proof.
  apply (proj1 (proj2 (proj2 (proj2 (main_selects_sets (fun _ _ _ => None) 5
           listing_5 listing_5 listing_5))) (fun _ _ _ => eq_refl)));
    unfold num_sets_of, listing_5; simpl; lia.
Defined.

(** X19 (main, lines 355-382).  [main] pairs the files by their rank in the
    sorted listings: a set it hands to [process_file_set] consists of the
    files of one rank below the number of sets whose names agree on the
    characters 3 to 17, and a set it skips is one whose three names do not
    all agree there.  When [main] returns, [process_file_set] has returned
    on every set it was handed. *)
Theorem main_pairs_by_rank (process : string -> string -> string -> option exn)
  (t : Z) (br csi_meta csi_mag : list string)
  (rs : list set_report) (r : set_report) :
  main process t {| br_metadata := Some br; csi_metadata := Some csi_meta;
                    csi_magnitude_data := Some csi_mag |} = inr rs ->
  In r rs ->
  let i := report_index r in
  exists b m g,
    (i < num_sets_of br csi_meta csi_mag)%nat /\
    nth_error (sorted br) i = Some b /\
    nth_error (sorted csi_meta) i = Some m /\
    nth_error (sorted csi_mag) i = Some g /\
    match r with
    | Processing _ b' m' g' =>
        b' = b /\ m' = m /\ g' = g /\
        segment b = segment m /\ segment m = segment g /\
        process g m b = None
    | Skipping _ sb sm sg =>
        sb = segment b /\ sm = segment m /\ sg = segment g /\
        ~ (segment b = segment m /\ segment m = segment g)
    end.
Proof.
  intros H Hr i. unfold main in H.
  cbn [br_metadata csi_metadata csi_magnitude_data] in H.
  rewrite main_num_sets in H.
  set (n := num_sets_of br csi_meta csi_mag) in *.
  destruct (Nat.eqb_spec n 0) as [E|E];
    [inversion H; subst rs; contradiction|].
  assert (Hin : exists j, (j < n)%nat /\
            r = check_set (sorted br) (sorted csi_meta) (sorted csi_mag) j /\
            set_outcome process (sorted br) (sorted csi_meta) (sorted csi_mag) j =
              None).
  { destruct (Z.ltb_spec 0 t).
    - destruct (Z.ltb_spec (Z.of_nat n) t); [discriminate|].
      apply run_sets_reports in H. destruct H as [Ers Hall]. subst rs.
      destruct Hr as [Hr|[]].
      exists (Z.to_nat (t - 1)). split; [lia|]. split; [auto|].
      apply Hall. left. reflexivity.
    - apply run_sets_reports in H. destruct H as [Ers Hall]. subst rs.
      apply in_map_iff in Hr.
      destruct Hr as [j [Ej Hj]]. exists j.
      split; [apply in_seq in Hj; lia|]. split; [auto|]. apply Hall, Hj. }
  destruct Hin as [j [Hj [Er Eo]]].
  assert (Hn : (n <= List.length (sorted br) /\
                n <= List.length (sorted csi_meta) /\
                n <= List.length (sorted csi_mag))%nat).
  { rewrite !sorted_length. unfold n, num_sets_of. lia. }
  destruct Hn as [N1 [N2 N3]].
  assert (Hi : i = j).
  { unfold i. subst r. apply report_index_check_set. }
  rewrite Hi.
  exists (nth j (sorted br) EmptyString), (nth j (sorted csi_meta) EmptyString),
         (nth j (sorted csi_mag) EmptyString).
  split; [exact Hj|].
  split; [apply nth_error_nth'; lia|].
  split; [apply nth_error_nth'; lia|].
  split; [apply nth_error_nth'; lia|].
  subst r. unfold set_outcome in Eo. unfold check_set in *.
  destruct (String.eqb_spec
              (segment (nth j (sorted br) EmptyString))
              (segment (nth j (sorted csi_meta) EmptyString))) as [E1|E1];
    cbn [andb] in *.
  - destruct (String.eqb_spec
                (segment (nth j (sorted csi_meta) EmptyString))
                (segment (nth j (sorted csi_mag) EmptyString))) as [E2|E2].
    + repeat split; assumption.
    + repeat split. intros [_ F]. contradiction.
  - repeat split. intros [F _]. contradiction.
Qed.

Lemma main_pairs_by_rank_witness :
  let fs := {| br_metadata := Some listing_5; csi_metadata := Some listing_5;
               csi_magnitude_data := Some listing_5 |} in
  let r := Processing 4 "br_20240101_120500_x.csv" "br_20240101_120500_x.csv"
             "br_20240101_120500_x.csv" in
  exists b m g,
    (report_index r < num_sets_of listing_5 listing_5 listing_5)%nat /\
    nth_error (sorted listing_5) (report_index r) = Some b /\
    nth_error (sorted listing_5) (report_index r) = Some m /\
    nth_error (sorted listing_5) (report_index r) = Some g /\
    ("br_20240101_120500_x.csv"%string = b /\
     "br_20240101_120500_x.csv"%string = m /\
     "br_20240101_120500_x.csv"%string = g /\
     segment b = segment m /\ segment m = segment g /\
     (fun _ _ _ : string => @None exn) g m b = None).
Proof.
  intros fs r.
  apply (main_pairs_by_rank (fun _ _ _ => None) 5 listing_5 listing_5 listing_5
           [r] r);
    [vm_compute; reflexivity|left; reflexivity].
Defined.

(** X22 (main, lines 355-382, with process_file_set, lines 291-317).  [main]
    does not guard its call of [process_file_set]: an exception of that
    call ends the run, and the sets after it are not looked at.  With a
    selector of zero or less the run ends at the first set, in order of
    rank, whose names agree and on which [process_file_set] raises; with a
    selector from 1 to the number of sets it ends so exactly when the
    selected set is such a set. *)
Theorem main_stops_at_first_failure
  (process : string -> string -> string -> option exn) (t : Z)
  (br csi_meta csi_mag : list string) (i : nat) (e : exn) :
  let n := num_sets_of br csi_meta csi_mag in
  let fs := {| br_metadata := Some br; csi_metadata := Some csi_meta;
               csi_magnitude_data := Some csi_mag |} in
  (i < n)%nat ->
  ((t <= 0)%Z ->
   (main process t fs = inl (Escaped i e) <->
    fails_at process br csi_meta csi_mag i e /\
    forall j e', (j < i)%nat -> ~ fails_at process br csi_meta csi_mag j e')) /\
  (t = (Z.of_nat i + 1)%Z ->
   (main process t fs = inl (Escaped i e) <->
    fails_at process br csi_meta csi_mag i e)).
Proof.
  intros n fs Hi. unfold main, fs.
  cbn [br_metadata csi_metadata csi_magnitude_data].
  rewrite main_num_sets. fold n.
  destruct (Nat.eqb_spec n 0); [lia|].
  set (a := sorted br). set (b := sorted csi_meta). set (c := sorted csi_mag).
  assert (Hnone : forall j, (j < n)%nat ->
            (forall e', ~ fails_at process br csi_meta csi_mag j e') <->
            set_outcome process a b c j = None).
  { intros j Hj. split.
    - intros H. destruct (set_outcome process a b c j) as [e'|] eqn:Ej;
        [|reflexivity].
      exfalso. apply (H e'). apply set_outcome_fails; assumption.
    - intros H e' F. apply set_outcome_fails in F; [|exact Hj].
      fold a b c in F. congruence. }
  split.
  - intros Ht. destruct (Z.ltb_spec 0 t) as [Hpos|_]; [lia|]. split.
    + intros Hm. apply run_sets_seq_raises in Hm.
      destruct Hm as [i' [e' [Ex [Hi' [Ei Hbefore]]]]].
      inversion Ex; subst i' e'. split.
      * apply set_outcome_fails; assumption.
      * intros j e' Hj. apply (proj2 (Hnone j ltac:(lia))). apply Hbefore. lia.
    + intros [Hf Hbefore]. apply run_sets_seq_first.
      * lia.
      * apply set_outcome_fails; assumption.
      * intros j Hj. apply Hnone; [lia|]. intros e'. apply Hbefore. lia.
  - intros Ht. destruct (Z.ltb_spec 0 t) as [_|Hneg]; [|lia].
    destruct (Z.ltb_spec (Z.of_nat n) t) as [Hbig|_]; [lia|].
    replace (Z.to_nat (t - 1)) with i by lia.
    rewrite run_sets_cons. cbn [run_sets].
    rewrite <- (set_outcome_fails process br csi_meta csi_mag i e Hi).
    fold a b c. destruct (set_outcome process a b c i) as [e'|].
    + split; intros H; inversion H; reflexivity.
    + split; discriminate.
Qed.

Lemma main_stops_at_first_failure_witness :
  main (fun _ _ _ => Some (ValueError "zero-size array")) 0
    {| br_metadata := Some listing_5; csi_metadata := Some listing_5;
       csi_magnitude_data := Some listing_5 |} =
  inl (Escaped 0 (ValueError "zero-size array")).
Proof.
  apply (proj1 (main_stops_at_first_failure
                  (fun _ _ _ => Some (ValueError "zero-size array")) 0
                  listing_5 listing_5 listing_5 0
                  (ValueError "zero-size array")
                  ltac:(unfold num_sets_of, listing_5; simpl; lia))
               ltac:(lia)).
  split.
  - exists "br_20240101_120100_x.csv"%string, "br_20240101_120100_x.csv"%string,
           "br_20240101_120100_x.csv"%string.
    repeat split.
  - intros j e' Hj. lia.
Defined.

(** ** The two fills together *)

(** X20 (fill_missing_csi, lines 212-215, and fill_missing_bitrate, lines
    234-238).  Each fill leaves the columns of the other signal alone:
    [fill_missing_csi] only reorders the columns whose name does not start
    with "subcarrier_", and on a table where no column name both starts with
    "subcarrier_" and contains "bitrate" the two fills can be applied in
    either order with the same result. *)
Theorem fills_are_selective (df : DataFrame) :
  (forall k name col,
     nth_error (columns df) k = Some (name, col) ->
     is_subcarrier name = false ->
     nth_error (columns (fill_missing_csi df)) k =
     Some (name, Pd.take None (Pd.argsort (timestamp df)) col)) /\
  (Forall (fun nc => is_subcarrier (fst nc) && is_bitrate (fst nc) = false)
          (columns df) ->
   fill_missing_csi (fill_missing_bitrate df) =
   fill_missing_bitrate (fill_missing_csi df)).
Proof.
  split.
  - intros k name col Hk Hn. simpl. rewrite !nth_error_map, Hk. simpl.
    rewrite Hn. reflexivity.
  - intros Hnames.
    transitivity
      {| timestamp := timestamp (fill_missing_bitrate df);
         columns := map (fun nc => if is_subcarrier (fst nc)
                                   then (fst nc, Pd.bfill (Pd.ffill (snd nc)))
                                   else nc) (columns (fill_missing_bitrate df)) |}.
    { unfold fill_missing_csi at 1. rewrite fill_missing_bitrate_sorted_again.
      reflexivity. }
    transitivity
      {| timestamp := timestamp (fill_missing_csi df);
         columns := map (fun nc => if is_bitrate (fst nc)
                                   then (fst nc, Pd.fillna 0 (snd nc))
                                   else nc) (columns (fill_missing_csi df)) |}.
    2:{ unfold fill_missing_bitrate at 1. rewrite fill_missing_csi_sorted_again.
        reflexivity. }
    unfold fill_missing_csi, fill_missing_bitrate. cbn [timestamp columns].
    f_equal. unfold Pd.sort_values. cbn [columns]. rewrite !map_map.
    apply map_ext_in. intros [n c] Hin. cbn [fst snd].
    rewrite Forall_forall in Hnames. specialize (Hnames _ Hin). cbn [fst] in Hnames.
    destruct (is_subcarrier n) eqn:Es, (is_bitrate n) eqn:Eb; cbn [fst snd];
      rewrite ?Es, ?Eb; try reflexivity.
    discriminate.
Qed.

Lemma fills_are_selective_witness :
  fill_missing_csi (fill_missing_bitrate bitrate_with_gaps) =
  fill_missing_bitrate (fill_missing_csi bitrate_with_gaps).
Proof.
  apply (proj2 (fills_are_selective bitrate_with_gaps)).
  repeat constructor.
Defined.

(** ** Activity labels *)

Lemma lower_app (a b : string) :
  lower (a ++ b)%string = (lower a ++ lower b)%string.
Proof. induction a as [|c a IH]; simpl; [reflexivity|]. rewrite IH. reflexivity. Qed.

Lemma lower_char_space (c : Ascii.ascii) : is_space c = true -> lower_char c = c.
Proof.
  unfold is_space, lower_char, is_upper. intros H.
  destruct (Nat.leb_spec 65 (Ascii.nat_of_ascii c)); [|reflexivity].
  destruct (Nat.leb_spec (Ascii.nat_of_ascii c) 90); [|reflexivity].
  exfalso. apply orb_true_iff in H.
  destruct H as [H|H]; apply andb_true_iff in H; destruct H as [_ H];
    apply Nat.leb_le in H; lia.
Qed.

Lemma lower_all_space (s : string) : all_space s -> lower s = s.
Proof.
  induction s as [|c s IH]; simpl; [reflexivity|]. intros [Hc Hs].
  rewrite (lower_char_space c Hc), (IH Hs). reflexivity.
Qed.

Lemma lstrip_pad (pre s : string) :
  all_space pre -> lstrip (pre ++ s)%string = lstrip s.
Proof.
  induction pre as [|c pre IH]; simpl; [reflexivity|]. intros [Hc Hs].
  rewrite Hc. apply IH, Hs.
Qed.

Lemma lstrip_all_space (s : string) : all_space s -> lstrip s = EmptyString.
Proof.
  induction s as [|c s IH]; simpl; [reflexivity|]. intros [Hc Hs].
  rewrite Hc. apply IH, Hs.
Qed.

Lemma rstrip_all_space (s : string) : all_space s -> rstrip s = EmptyString.
Proof.
  induction s as [|c s IH]; simpl; [reflexivity|]. intros [Hc Hs].
  rewrite (IH Hs), Hc. reflexivity.
Qed.

Lemma rstrip_pad (s post : string) :
  all_space post -> rstrip (s ++ post)%string = rstrip s.
Proof.
  intros H. induction s as [|c s IH]; simpl.
  - apply rstrip_all_space, H.
  - rewrite IH. reflexivity.
Qed.

Lemma lstrip_app (s post : string) :
  all_space post ->
  lstrip (s ++ post)%string =
  match lstrip s with
  | EmptyString => EmptyString
  | r => (r ++ post)%string
  end.
Proof.
  intros H. induction s as [|c s IH]; simpl.
  - apply lstrip_all_space, H.
  - destruct (is_space c); [exact IH|reflexivity].
Qed.

Lemma strip_pad (pre s post : string) :
  all_space pre -> all_space post ->
  strip (pre ++ s ++ post)%string = strip s.
Proof.
  intros Hpre Hpost. unfold strip.
  rewrite (lstrip_pad _ _ Hpre), (lstrip_app _ _ Hpost).
  destruct (lstrip s) as [|c r] eqn:E; [reflexivity|].
  apply (rstrip_pad (String c r)), Hpost.
Qed.

(** X21 (cnn_model.py, map_activity, lines 16-24).  The label of an
    activity is 0 or 1, and 0 exactly when the name reads "static" once put
    in lower case and stripped of the whitespace around it; every other
    name, known or not, is labelled 1.  The label depends on neither the
    letter case of the name nor the whitespace before and after it. *)
Theorem map_activity_labels (activity : string) :
  (map_activity activity = 0%Z \/ map_activity activity = 1%Z) /\
  (map_activity activity = 0%Z <-> strip (lower activity) = "static"%string) /\
  (forall other, lower other = lower activity ->
     map_activity other = map_activity activity) /\
  (forall pre post, all_space pre -> all_space post ->
     map_activity (pre ++ activity ++ post)%string = map_activity activity).
Proof.
  split; [|split; [|split]].
  - unfold map_activity. destruct (String.eqb _ "static"); [left; reflexivity|].
    right. destruct (_ || _); reflexivity.
  - unfold map_activity.
    destruct (String.eqb_spec (strip (lower activity)) "static") as [E|E].
    + split; auto.
    + split; [|intros H; contradiction].
      destruct (_ || _); discriminate.
  - intros other H. unfold map_activity. rewrite H. reflexivity.
  - intros pre post Hpre Hpost. unfold map_activity.
    rewrite !lower_app, (lower_all_space _ Hpre), (lower_all_space _ Hpost).
    rewrite (strip_pad _ _ _ Hpre Hpost). reflexivity.
Qed.

Lemma map_activity_labels_witness :
  map_activity ("  " ++ "Static" ++ String (Ascii.ascii_of_nat 10) EmptyString)%string =
  map_activity "Static".
Proof.
  apply (proj2 (proj2 (proj2 (map_activity_labels "Static"))));
    simpl; repeat split.
Defined.

(** The labels of the three activities of the data set, and of a name the
    code does not know. *)
Example map_activity_examples :
  map (fun a => map_activity a)
      ["static"; "Static "; "Mild"; "AGGRESSIVE"; "walking"; ""]%string =
  [0; 0; 1; 1; 1; 1]%Z.
Proof. vm_compute. reflexivity. Qed.
